(** * Montana counties licence-plate lookup

    A shallow embedding of [Challenge2.py] and the properties of its loaders,
    validator, lookup and interactive entry flow.

    Text is modelled on the ASCII range: a Python [str] is a list of
    characters, and [lower], [title], [isalpha], [strip] and [int] follow
    CPython on code points below 128 (code points from 128 on are uncased,
    non-alphabetic and not white space here).  The [csv] module is the
    standard library's: a CSV file is represented by the rows [csv.reader]
    yields for it, and [DictReader] is modelled on top of those rows.  Files
    are read in text mode with universal newlines and written on a POSIX
    system. *)

From Stdlib Require Import List Ascii String ZArith NArith Bool Lia.
From Stdlib Require Import Numbers.DecimalString.
Import ListNotations.

Local Open Scope string_scope.
Local Open Scope list_scope.

(** ** Characters and strings *)

Definition str := list ascii.

Coercion list_ascii_of_string : string >-> list.

Definition code (c : ascii) : N := N_of_ascii c.

Definition SPACE : ascii := " "%char.
Definition COMMA : ascii := ","%char.
Definition LF : ascii := "010"%char.
Definition CR : ascii := "013"%char.

Definition is_upper (c : ascii) : bool := ((65 <=? code c) && (code c <=? 90))%N.
Definition is_lower (c : ascii) : bool := ((97 <=? code c) && (code c <=? 122))%N.
Definition is_alpha (c : ascii) : bool := is_upper c || is_lower c.
Definition is_digit (c : ascii) : bool := ((48 <=? code c) && (code c <=? 57))%N.

(** White space of [str.strip()] and [str.isspace()]: TAB, LF, VT, FF, CR,
    the four separators FS, GS, RS, US, and the space. *)
Definition is_space (c : ascii) : bool :=
  (((9 <=? code c) && (code c <=? 13)) || ((28 <=? code c) && (code c <=? 32)))%N.

Definition lower_char (c : ascii) : ascii :=
  if is_upper c then ascii_of_N (code c + 32) else c.

Definition upper_char (c : ascii) : ascii :=
  if is_lower c then ascii_of_N (code c - 32) else c.

Fixpoint str_eqb (a b : str) : bool :=
  match a, b with
  | [], [] => true
  | x :: a', y :: b' => Ascii.eqb x y && str_eqb a' b'
  | _, _ => false
  end.

(** [s.lower()] *)
Definition lower (s : str) : str := map lower_char s.

(** [s.title()]: a character that follows a cased character is lowered, any
    other character is put in title case. *)
Fixpoint title_from (previous_is_cased : bool) (s : str) : str :=
  match s with
  | [] => []
  | c :: t =>
      (if previous_is_cased then lower_char c else upper_char c)
        :: title_from (is_alpha c) t
  end.

Definition title (s : str) : str := title_from false s.

(** [s.isalpha()]: at least one character, and all of them letters. *)
Definition isalpha (s : str) : bool :=
  match s with
  | [] => false
  | _ :: _ => forallb is_alpha s
  end.

(** [s.replace(old, "")] for a one-character [old]. *)
Definition replace_with_empty (old : ascii) (s : str) : str :=
  filter (fun c => negb (Ascii.eqb c old)) s.

Fixpoint lstrip (s : str) : str :=
  match s with
  | [] => []
  | c :: t => if is_space c then lstrip t else s
  end.

Definition rstrip (s : str) : str := rev (lstrip (rev s)).

(** [s.strip()] *)
Definition strip (s : str) : str := rstrip (lstrip s).

(** [s.split(sep)] for a one-character separator: always at least one part. *)
Fixpoint split (sep : ascii) (s : str) : list str :=
  match s with
  | [] => [[]]
  | c :: t =>
      if Ascii.eqb c sep then [] :: split sep t
      else match split sep t with
           | p :: ps => (c :: p) :: ps
           | [] => [[c]]
           end
  end.

(** [int(s)] in base 10: surrounding white space, an optional sign, then
    digits, where single underscores may separate digits. *)
Definition digit_val (c : ascii) : option Z :=
  if is_digit c then Some (Z.of_N (code c - 48)) else None.

Fixpoint int_digits (acc : Z) (after_digit : bool) (s : str) : option Z :=
  match s with
  | [] => if after_digit then Some acc else None
  | c :: t =>
      if Ascii.eqb c "_"
      then (if after_digit then int_digits acc false t else None)
      else match digit_val c with
           | Some d => int_digits (10 * acc + d) true t
           | None => None
           end
  end.

Definition int_of_str (s : str) : option Z :=
  match strip s with
  | c :: t =>
      if Ascii.eqb c "+" then int_digits 0 false t
      else if Ascii.eqb c "-" then option_map Z.opp (int_digits 0 false t)
      else int_digits 0 false (c :: t)
  | [] => None
  end.

(** [str(n)] for an integer. *)
Definition str_of_int (n : Z) : str :=
  list_ascii_of_string (NilZero.string_of_int (Z.to_int n)).

(** ** Dictionaries

    A Python [dict] keeps its keys in insertion order, and assigning to a key
    that is present keeps the key's position: an association list with
    distinct keys. *)

Section Dict.

Context {V : Type}.

Definition dict : Type := list (str * V).

Fixpoint dict_get (d : dict) (k : str) : option V :=
  match d with
  | [] => None
  | (k', v) :: t => if str_eqb k' k then Some v else dict_get t k
  end.

(** [d[k] = v] *)
Fixpoint dict_set (d : dict) (k : str) (v : V) : dict :=
  match d with
  | [] => [(k, v)]
  | (k', v') :: t =>
      if str_eqb k' k then (k', v) :: t else (k', v') :: dict_set t k v
  end.

Definition dict_keys (d : dict) : list str := map fst d.

(** [d.values()], in insertion order. *)
Definition dict_values (d : dict) : list V := map snd d.

End Dict.

Arguments dict : clear implicits.

(** ** The city directory *)

(** A licence-plate prefix is an [int] when it comes from the reference file
    and a [str] when it comes from the user store or is the "unknown"
    sentinel. *)
Inductive prefix : Type :=
| PInt (n : Z)
| PStr (s : str).

(** The text an f-string puts for [{prefix}]. *)
Definition format_prefix (p : prefix) : str :=
  match p with
  | PInt n => str_of_int n
  | PStr s => s
  end.

Definition city_record : Type := (str * prefix)%type.

Definition city_directory : Type := dict city_record.

Definition CITY_FILE : str := "NewCities.txt".
Definition CSV_FILE : str := "MontanaCounties.csv".

(** ** The world the program runs in *)

Definition csv_row : Type := list str.

Record World : Type := mkWorld {
  csv_files : dict (list csv_row);
  text_files : dict str;
  stdin : list str;
  stdout : list str;
  cities : city_directory
}.

Inductive exn : Type :=
| FileNotFoundError
| KeyError
| AttributeError
| TypeError
| ValueError
| IndexError
| EOFError.

Inductive outcome (A : Type) : Type :=
| Ret (a : A)
| Raise (e : exn)
| OutOfFuel.

Arguments Ret {A} a.
Arguments Raise {A} e.
Arguments OutOfFuel {A}.

Definition M (A : Type) : Type := World -> outcome A * World.

Definition ret {A : Type} (a : A) : M A := fun w => (Ret a, w).

Definition raise {A : Type} (e : exn) : M A := fun w => (Raise e, w).

Definition out_of_fuel {A : Type} : M A := fun w => (OutOfFuel, w).

Definition bind {A B : Type} (m : M A) (k : A -> M B) : M B :=
  fun w =>
    match m w with
    | (Ret a, w') => k a w'
    | (Raise e, w') => (Raise e, w')
    | (OutOfFuel, w') => (OutOfFuel, w')
    end.

Notation "x <- m ;; k" := (bind m (fun x => k))
  (at level 61, m at next level, right associativity).
Notation "m ;; k" := (bind m (fun _ => k))
  (at level 61, right associativity).

Definition set_stdin (l : list str) (w : World) : World :=
  mkWorld (csv_files w) (text_files w) l (stdout w) (cities w).

Definition set_stdout (l : list str) (w : World) : World :=
  mkWorld (csv_files w) (text_files w) (stdin w) l (cities w).

Definition set_text_files (fs : dict str) (w : World) : World :=
  mkWorld (csv_files w) fs (stdin w) (stdout w) (cities w).

Definition set_cities (d : city_directory) (w : World) : World :=
  mkWorld (csv_files w) (text_files w) (stdin w) (stdout w) d.

(** [sys.stdout.write(s)] *)
Definition write_stdout (s : str) : M unit :=
  fun w => (Ret tt, set_stdout (stdout w ++ [s]) w).

(** [print(s)] *)
Definition print (s : str) : M unit := write_stdout (s ++ [LF]).

(** One line of the standard input, without its line end; [EOFError] at the
    end of the input. *)
Definition read_line : M str :=
  fun w =>
    match stdin w with
    | [] => (Raise EOFError, w)
    | line :: rest => (Ret line, set_stdin rest w)
    end.

(** [input(prompt)]: shows the prompt and reads one line. *)
Definition input (prompt : str) : M str :=
  write_stdout prompt ;; read_line.

Definition get_cities : M city_directory := fun w => (Ret (cities w), w).

(** [cities[k] = v] on the directory object. *)
Definition cities_setitem (k : str) (v : city_record) : M unit :=
  fun w => (Ret tt, set_cities (dict_set (cities w) k v) w).

(** ** Files *)

(** Universal newlines: on reading, CR LF and a lone CR become LF. *)
Fixpoint universal_newlines (s : str) : str :=
  match s with
  | [] => []
  | c :: t =>
      if Ascii.eqb c CR then
        match t with
        | c' :: t' =>
            if Ascii.eqb c' LF then LF :: universal_newlines t'
            else LF :: universal_newlines t
        | [] => [LF]
        end
      else c :: universal_newlines t
  end.

(** The lines a text file object iterates over: each keeps its line end, and
    a last line without one is a line too. *)
Fixpoint lines_from (current : str) (s : str) : list str :=
  match s with
  | [] => match current with [] => [] | _ :: _ => [rev current] end
  | c :: t =>
      if Ascii.eqb c LF then rev (c :: current) :: lines_from [] t
      else lines_from (c :: current) t
  end.

Definition file_lines (content : str) : list str :=
  lines_from [] (universal_newlines content).

(** [open(path, "r")] followed by iteration over the file. *)
Definition open_read_lines (path : str) : M (list str) :=
  fun w =>
    match dict_get (text_files w) path with
    | Some content => (Ret (file_lines content), w)
    | None => (Raise FileNotFoundError, w)
    end.

(** [open(path, "a")], one [write], and the close. *)
Definition open_append_write (path : str) (data : str) : M unit :=
  fun w =>
    let old := match dict_get (text_files w) path with
               | Some content => content
               | None => []
               end in
    (Ret tt, set_text_files (dict_set (text_files w) path (old ++ data)) w).

(** [open(path, newline="")] read through [csv.reader]. *)
Definition open_csv_reader (path : str) : M (list csv_row) :=
  fun w =>
    match dict_get (csv_files w) path with
    | Some rows => (Ret rows, w)
    | None => (Raise FileNotFoundError, w)
    end.

(** ** [csv.DictReader]

    The first row gives the field names.  A later row becomes a dictionary
    from field name to field; a short row has [None] (the [restval]) for the
    fields it lacks, and empty rows are passed over.  The fields beyond the
    field names go under the key [None] (the [restkey]), which no string key
    reaches, and are left out. *)

Definition row_dict : Type := dict (option str).

Definition DictReader_row (fieldnames : list str) (row : csv_row) : row_dict :=
  let d := fold_left (fun d kv => dict_set d (fst kv) (Some (snd kv)))
                     (combine fieldnames row) [] in
  fold_left (fun d key => dict_set d key None)
            (skipn (List.length row) fieldnames) d.

Definition is_empty_row (row : csv_row) : bool :=
  match row with
  | [] => true
  | _ :: _ => false
  end.

Definition DictReader (rows : list csv_row) : list row_dict :=
  match rows with
  | [] => []
  | fieldnames :: data =>
      map (DictReader_row fieldnames)
          (filter (fun row => negb (is_empty_row row)) data)
  end.

(** [row[key]] *)
Definition row_getitem (row : row_dict) (key : str) : M (option str) :=
  match dict_get row key with
  | Some v => ret v
  | None => raise KeyError
  end.

(** [v.strip()] on a value that may be [None]. *)
Definition value_strip (v : option str) : M str :=
  match v with
  | Some s => ret (strip s)
  | None => raise AttributeError
  end.

(** [int(v)] on a value that may be [None]. *)
Definition int (v : option str) : M Z :=
  match v with
  | Some s =>
      match int_of_str s with
      | Some n => ret n
      | None => raise ValueError
      end
  | None => raise TypeError
  end.

(** ** The program *)

(** The body of the [for row in reader] loop of [load_initial_cities],
    iterated over the rows; [cities] is the dictionary being built. *)
Fixpoint load_initial_rows (reader : list row_dict) (cities : city_directory)
  : M city_directory :=
  match reader with
  | [] => ret cities
  | row :: rest =>
      city_field <- row_getitem row "city" ;;
      city_stripped <- value_strip city_field ;;
      let city := lower city_stripped in
      county_field <- row_getitem row "county" ;;
      county <- value_strip county_field ;;
      prefix_field <- row_getitem row "prefix" ;;
      prefix <- int prefix_field ;;
      load_initial_rows rest (dict_set cities city (county, PInt prefix))
  end.

Definition load_initial_cities (csv_file : str) : M city_directory :=
  rows <- open_csv_reader csv_file ;;
  load_initial_rows (DictReader rows) [].

(** [parts[i]] *)
Definition list_getitem (parts : list str) (i : nat) : M str :=
  match nth_error parts i with
  | Some part => ret part
  | None => raise IndexError
  end.

(** The body of the [for line in file] loop of [load_user_cities]. *)
Definition load_user_line (line : str) : M unit :=
  let line := strip line in
  match line with
  | [] => ret tt
  | _ :: _ =>
      let parts := split COMMA line in
      part0 <- list_getitem parts 0 ;;
      let city := lower (strip part0) in
      part1 <- list_getitem parts 1 ;;
      let county := strip part1 in
      prefix <- (if (2 <? List.length parts)%nat
                 then part2 <- list_getitem parts 2 ;; ret (strip part2)
                 else ret ("unknown" : str)) ;;
      cities_setitem city (county, PStr prefix)
  end.

Fixpoint load_user_lines (lines : list str) : M unit :=
  match lines with
  | [] => ret tt
  | line :: rest => load_user_line line ;; load_user_lines rest
  end.

(** [load_user_cities(file_path, cities)], where [cities] is the directory
    object of the world. *)
Definition load_user_cities (file_path : str) : M unit :=
  lines <- open_read_lines file_path ;;
  load_user_lines lines.

Definition save_new_city (city_name county_name : str) (p : prefix) : M unit :=
  open_append_write CITY_FILE
    (city_name ++ "," ++ county_name ++ "," ++ format_prefix p ++ [LF]).

Definition validate_name (name : str) : M bool :=
  match name with
  | [] => print "Invalid input. Please enter a valid name." ;; ret false
  | _ :: _ =>
      if negb (isalpha (replace_with_empty SPACE name))
      then print "Name should only contain letters." ;; ret false
      else ret true
  end.

Definition lookup_city (city_name : str) : M bool :=
  let city_name_lower := lower city_name in
  cities <- get_cities ;;
  match dict_get cities city_name_lower with
  | Some (county, p) =>
      print (title city_name ++ " is in " ++ county
             ++ " County (License Prefix " ++ format_prefix p ++ ")") ;;
      ret true
  | None => ret false
  end.

(** The [for county, prefix in cities.values()] scan of [unknown_city]:
    [existing_prefix] is the prefix of the first value whose county equals
    the entered one when both are lowered, and [None] when the scan ends
    without a [break]. *)
Fixpoint scan_existing_prefix (values : list city_record) (county_name : str)
  : option prefix :=
  match values with
  | [] => None
  | (county, p) :: rest =>
      if str_eqb (lower county) (lower county_name) then Some p
      else scan_existing_prefix rest county_name
  end.

Definition UNKNOWN : prefix := PStr "unknown".

Definition prefix_to_use (cities : city_directory) (county_name : str) : prefix :=
  match scan_existing_prefix (dict_values cities) county_name with
  | Some existing_prefix => existing_prefix
  | None => UNKNOWN
  end.

Definition is_y_or_n (s : str) : bool := str_eqb s "y" || str_eqb s "n".

(** How the inner [while True] of [unknown_city] is left: by [break], or by
    the [return] of the whole function. *)
Inductive loop_exit : Type :=
| Break
| Return.

(** The confirmation loop of [unknown_city]; one unit of fuel per turn. *)
Fixpoint confirm_loop (fuel : nat) (city_name county_name : str) (p : prefix)
  : M loop_exit :=
  match fuel with
  | O => out_of_fuel
  | S fuel' =>
      print ([LF] ++ "Please confirm your entry:") ;;
      print ("City: " ++ title city_name) ;;
      print ("County: " ++ county_name) ;;
      answer <- input "Is this correct? (y/n): " ;;
      let confirm := lower answer in
      if negb (is_y_or_n confirm) then
        print "Invalid input. Please type 'y' or 'n'." ;;
        confirm_loop fuel' city_name county_name p
      else if str_eqb confirm "n" then
        print "Let's try again." ;;
        ret Break
      else
        cities_setitem (lower city_name) (county_name, p) ;;
        save_new_city (lower city_name) county_name p ;;
        print ("Added: " ++ title city_name ++ " - " ++ county_name
               ++ " - Prefix: " ++ format_prefix p ++ [LF]) ;;
        ret Return
  end.

(** [unknown_city(city_name, cities)]; one unit of fuel per turn of a loop. *)
Fixpoint unknown_city (fuel : nat) (city_name : str) : M unit :=
  match fuel with
  | O => out_of_fuel
  | S fuel' =>
      answer <- input (title city_name
                       ++ " not found. Would you like to make a new entry for "
                       ++ title city_name ++ "? (y/n): ") ;;
      let user_input := lower answer in
      if negb (is_y_or_n user_input) then
        print "Invalid input. Please type 'y' or 'n'." ;;
        unknown_city fuel' city_name
      else if str_eqb user_input "n" then
        ret tt
      else
        county_answer <- input ("Enter the County name for "
                                ++ title city_name ++ ": ") ;;
        let county_name := title (strip county_answer) in
        valid <- validate_name county_name ;;
        if negb valid then unknown_city fuel' city_name
        else
          cities <- get_cities ;;
          let p := prefix_to_use cities county_name in
          exit <- confirm_loop fuel' city_name county_name p ;;
          match exit with
          | Break => unknown_city fuel' city_name
          | Return => ret tt
          end
  end.

(** The two loading calls that open [main]. *)
Definition load_data : M unit :=
  loaded <- load_initial_cities CSV_FILE ;;
  (fun w => (Ret tt, set_cities loaded w)) ;;
  load_user_cities CITY_FILE.

(** The [while True] loop of [main]. *)
Fixpoint main_loop (fuel : nat) : M unit :=
  match fuel with
  | O => out_of_fuel
  | S fuel' =>
      answer <- input "Please enter a city name (or 'x' to exit): " ;;
      let city_name := strip answer in
      if str_eqb (lower city_name) "x" then ret tt
      else
        valid <- validate_name city_name ;;
        if negb valid then main_loop fuel'
        else
          found <- lookup_city city_name ;;
          if negb found
          then unknown_city fuel' city_name ;; main_loop fuel'
          else main_loop fuel'
  end.

Definition main (fuel : nat) : M unit :=
  load_data ;;
  print "Do you want to learn about your Montana Counties?" ;;
  print "Sounds like SOOO much fun... right?" ;;
  answer <- input "Ready to play? (y/n): " ;;
  let still_playing := lower answer in
  if negb (str_eqb still_playing "y") then print "Okay, goodbye!"
  else
    main_loop fuel ;;
    print "Thanks! Have a good day.".

(** ** Pure readings used in the statements *)

(** What one line of the user store does to the directory: [None] when the
    line has a single field and [parts[1]] raises. *)
Definition user_line_effect (line : str) (d : city_directory)
  : option city_directory :=
  match strip line with
  | [] => Some d
  | _ :: _ =>
      match split COMMA (strip line) with
      | part0 :: part1 :: rest =>
          Some (dict_set d (lower (strip part0))
                  (strip part1,
                   PStr (match rest with
                         | part2 :: _ => strip part2
                         | [] => "unknown" : str
                         end)))
      | _ => None
      end
  end.

(** A line that is not blank and has no comma. *)
Definition single_field (line : str) : bool :=
  match strip line with
  | [] => false
  | _ :: _ => negb (existsb (Ascii.eqb COMMA) (strip line))
  end.

(** The entry a row of the reference file contributes, when the row has the
    three fields and its prefix is an integer. *)
Definition row_entry (row : row_dict) : option (str * city_record) :=
  match dict_get row "city", dict_get row "county", dict_get row "prefix" with
  | Some (Some city), Some (Some county), Some (Some p) =>
      match int_of_str p with
      | Some n => Some (lower (strip city), (strip county, PInt n))
      | None => None
      end
  | _, _, _ => None
  end.





(** Every key is its own lowering. *)
Definition keys_lower {V : Type} (d : dict V) : Prop :=
  Forall (fun k => lower k = k) (dict_keys d).

(** No white space at either end. *)
Definition stripped (s : str) : bool :=
  negb (is_space (hd "x"%char s)) && negb (is_space (last s "x"%char)).

(** A character that neither separates fields nor ends a line. *)
Definition plain (c : ascii) : bool :=
  negb (Ascii.eqb c COMMA || Ascii.eqb c LF || Ascii.eqb c CR).

(** A character that does not end a line. *)
Definition within_line (c : ascii) : bool :=
  negb (Ascii.eqb c LF || Ascii.eqb c CR).

(** A character that is neither white space nor a separator. *)
Definition solid (c : ascii) : bool := negb (is_space c) && plain c.

(** A text that comes back unchanged as a field of a line of the user
    store. *)
Definition field_text (s : str) : bool := stripped s && forallb plain s.

Definition prefix_ok (p : prefix) : bool :=
  match p with
  | PInt _ => true
  | PStr s => field_text s
  end.

(** Every prefix of the directory is a number or a text that is a field. *)
Definition prefixes_ok (d : city_directory) : bool :=
  forallb (fun record : city_record => prefix_ok (snd record)) (dict_values d).

(** The user store is empty or its last character ends a line. *)
Definition ends_with_line_end (content : str) : bool :=
  match rev content with
  | [] => true
  | c :: _ => Ascii.eqb c LF || Ascii.eqb c CR
  end.

(** The three prompts of [unknown_city]. *)
Definition ask_want_add (city_name : str) : str :=
  title city_name ++ " not found. Would you like to make a new entry for "
    ++ title city_name ++ "? (y/n): ".

Definition ask_county (city_name : str) : str :=
  "Enter the County name for " ++ title city_name ++ ": ".

Definition ask_confirm : str := "Is this correct? (y/n): ".

(** The world after a chunk is written to the standard output, and after a
    line is read from the standard input. *)
Definition shows (s : str) (w : World) : World :=
  set_stdout (stdout w ++ [s]) w.

Definition reads (rest : list str) (w : World) : World := set_stdin rest w.

(** The line [save_new_city] appends. *)
Definition store_line (city_name county_name : str) (p : prefix) : str :=
  city_name ++ "," ++ county_name ++ "," ++ format_prefix p ++ [LF].

Definition file_content (w : World) (path : str) : str :=
  match dict_get (text_files w) path with
  | Some content => content
  | None => []
  end.

(** What the three [print]s and the prompt of a turn of the confirmation loop
    leave on the standard output. *)
Definition confirm_shown (city_name county_name : str) (w : World) : World :=
  shows ask_confirm
    (shows (("County: " ++ county_name) ++ [LF])
       (shows (("City: " ++ title city_name) ++ [LF])
          (shows (([LF] ++ "Please confirm your entry:") ++ [LF]) w))).

(** The world after the commit: the directory entry, the appended line, the
    message. *)
Definition committed (city_name county_name : str) (p : prefix) (w : World)
  : World :=
  shows (("Added: " ++ title city_name ++ " - " ++ county_name
          ++ " - Prefix: " ++ format_prefix p ++ [LF]) ++ [LF])
    (set_text_files
       (dict_set (text_files w) CITY_FILE
          (file_content w CITY_FILE
           ++ store_line (lower city_name) county_name p))
       (set_cities (dict_set (cities w) (lower city_name) (county_name, p)) w)).

(** A computation that only adds to the standard output. *)
Definition appends {A : Type} (m : M A) : Prop :=
  forall w, exists l, stdout (snd (m w)) = stdout w ++ l.

(** Two worlds with the same directory and the same files. *)
Definition same_store (w w' : World) : Prop :=
  cities w' = cities w /\ text_files w' = text_files w
  /\ csv_files w' = csv_files w.

(** The directory and the files of [w'] are those of [w] after the commit of
    one entry. *)
Definition commit_of (city_name county_name : str) (p : prefix) (w w' : World)
  : Prop :=
  cities w' = dict_set (cities w) (lower city_name) (county_name, p)
  /\ text_files w' =
     dict_set (text_files w) CITY_FILE
       (file_content w CITY_FILE ++ store_line (lower city_name) county_name p)
  /\ csv_files w' = csv_files w.

(** The prompt of the main loop, and the line a hit prints. *)
Definition ask_city : str := "Please enter a city name (or 'x' to exit): ".

Definition found_line (city_name county : str) (p : prefix) : str :=
  (title city_name ++ " is in " ++ county
   ++ " County (License Prefix " ++ format_prefix p ++ ")") ++ [LF].

(** The world once the main loop has asked for a city and read a line. *)
Definition city_asked (rest : list str) (w : World) : World :=
  reads rest (shows ask_city w).

(** The world once [main] has greeted the user and read the answer to
    "Ready to play?". *)
Definition greeted (rest : list str) (w : World) : World :=
  reads rest
    (shows ("Ready to play? (y/n): " : str)
       (shows (("Sounds like SOOO much fun... right?" : str) ++ [LF])
          (shows (("Do you want to learn about your Montana Counties?" : str)
                  ++ [LF]) w))).

(** From [w] to [w'] the user store has only grown, at its end, and no other
    file has changed. *)
Definition store_grows (w w' : World) : Prop :=
  (exists added,
      file_content w' CITY_FILE = file_content w CITY_FILE ++ added) /\
  (forall path, path <> CITY_FILE ->
                dict_get (text_files w') path = dict_get (text_files w) path) /\
  csv_files w' = csv_files w.

(** From [w] to [w'] every entry of the directory is still there, with the
    same record. *)
Definition entries_kept (w w' : World) : Prop :=
  forall k record,
    dict_get (cities w) k = Some record -> dict_get (cities w') k = Some record.

(** The entry a line of the user store contributes: none for a blank line
    and for a line with a single field. *)
Definition user_line_entry (line : str) : option (str * city_record) :=
  match strip line with
  | [] => None
  | _ :: _ =>
      match split COMMA (strip line) with
      | part0 :: part1 :: rest =>
          Some (lower (strip part0),
                (strip part1,
                 PStr (match rest with
                       | part2 :: _ => strip part2
                       | [] => "unknown" : str
                       end)))
      | _ => None
      end
  end.

(** The entries of the lines of the user store, in the order of the lines. *)
Definition user_entries (lines : list str) : list (str * city_record) :=
  flat_map (fun line => match user_line_entry line with
                        | Some entry => [entry]
                        | None => []
                        end) lines.

(** The directory after the entries are stored in it one after the other. *)
Definition merge_entries (d : city_directory)
           (entries : list (str * city_record)) : city_directory :=
  fold_left (fun d e => dict_set d (fst e) (snd e)) entries d.

(** Two texts that differ at most in the case of their letters. *)
Definition same_letters (a b : str) : Prop := lower a = lower b.

(** Two worlds that differ at most in the case of the letters of the lines
    still to be read. *)
Definition same_up_to_case (w1 w2 : World) : Prop :=
  map lower (stdin w1) = map lower (stdin w2) /\
  stdout w1 = stdout w2 /\ cities w1 = cities w2 /\
  text_files w1 = text_files w2 /\ csv_files w1 = csv_files w2.

Definition same_outcome {A : Type} (RA : A -> A -> Prop) (o1 o2 : outcome A)
  : Prop :=
  match o1, o2 with
  | Ret a1, Ret a2 => RA a1 a2
  | Raise e1, Raise e2 => e1 = e2
  | OutOfFuel, OutOfFuel => True
  | _, _ => False
  end.

(** Two computations that, from worlds the same up to case, end the same way
    with results related by [RA], in worlds the same up to case. *)
Definition related {A : Type} (RA : A -> A -> Prop) (m1 m2 : M A) : Prop :=
  forall w1 w2,
    same_up_to_case w1 w2 ->
    same_outcome RA (fst (m1 w1)) (fst (m2 w2)) /\
    same_up_to_case (snd (m1 w1)) (snd (m2 w2)).

(** A line typed at the city prompt that is not the exit word, passes
    [validate_name] and names a city of the directory [d]. *)
Definition names_known_city (d : city_directory) (answer : str) : bool :=
  negb (str_eqb (lower (strip answer)) "x")
  && isalpha (replace_with_empty SPACE (strip answer))
  && match dict_get d (lower (strip answer)) with
     | Some _ => true
     | None => false
     end.

(** What the main loop writes for such lines: the prompt, then the line of
    the hit. *)
Definition hit_lines (d : city_directory) (answers : list str) : list str :=
  flat_map (fun answer =>
              match dict_get d (lower (strip answer)) with
              | Some (county, p) =>
                  [ask_city; found_line (strip answer) county p]
              | None => []
              end) answers.

(** What [main] writes before it reads the answer to "Ready to play?". *)
Definition greeting : list str :=
  [("Do you want to learn about your Montana Counties?" : str) ++ [LF];
   ("Sounds like SOOO much fun... right?" : str) ++ [LF];
   ("Ready to play? (y/n): " : str)].









(** ** Characters *)

Lemma str_eqb_refl (s : str) : str_eqb s s = true.
Proof.
  induction s as [|c s IH]; simpl; [reflexivity|].
  now rewrite Ascii.eqb_refl, IH.
Qed.

Lemma str_eqb_eq (a b : str) : str_eqb a b = true <-> a = b.
Proof.
  split.
  - revert b; induction a as [|x a IH]; intros [|y b] H; simpl in H;
      try discriminate; [reflexivity|].
    apply andb_true_iff in H as [Hxy Hab].
    apply Ascii.eqb_eq in Hxy. f_equal; auto.
  - intros ->. apply str_eqb_refl.
Qed.

Lemma str_eqb_neq (a b : str) : str_eqb a b = false <-> a <> b.
Proof.
  split.
  - intros H E. apply str_eqb_eq in E. congruence.
  - intros H. destruct (str_eqb a b) eqn:E; [|reflexivity].
    apply str_eqb_eq in E. contradiction.
Qed.

Ltac all_chars c := destruct c as [[] [] [] [] [] [] [] []].

Lemma lower_char_idem (c : ascii) : lower_char (lower_char c) = lower_char c.
Proof. all_chars c; reflexivity. Qed.

Lemma lower_char_space (c : ascii) : is_space (lower_char c) = is_space c.
Proof. all_chars c; reflexivity. Qed.

Lemma upper_char_space (c : ascii) : is_space (upper_char c) = is_space c.
Proof. all_chars c; reflexivity. Qed.

Lemma lower_char_alpha (c : ascii) : is_alpha (lower_char c) = is_alpha c.
Proof. all_chars c; reflexivity. Qed.

Lemma upper_char_alpha (c : ascii) : is_alpha (upper_char c) = is_alpha c.
Proof. all_chars c; reflexivity. Qed.

Lemma alpha_not_space (c : ascii) : is_alpha c = true -> is_space c = false.
Proof. all_chars c; simpl; intros H; try reflexivity; discriminate H. Qed.

Lemma lower_idem (s : str) : lower (lower s) = lower s.
Proof.
  unfold lower. rewrite map_map. apply map_ext. intros c. apply lower_char_idem.
Qed.

(** ** Dictionaries *)

Section DictFacts.

Context {V : Type}.
Implicit Types (d : dict V) (k : str) (v : V).

Lemma dict_get_set_same d k v : dict_get (dict_set d k v) k = Some v.
Proof.
  induction d as [|[k' v'] d IH]; simpl.
  - now rewrite str_eqb_refl.
  - destruct (str_eqb k' k) eqn:E; simpl; rewrite E; auto.
Qed.

Lemma dict_get_set_other d k k' v :
  k <> k' -> dict_get (dict_set d k v) k' = dict_get d k'.
Proof.
  intros Hne. induction d as [|[k0 v0] d IH]; simpl.
  - apply str_eqb_neq in Hne. now rewrite Hne.
  - destruct (str_eqb k0 k) eqn:E; simpl.
    + apply str_eqb_eq in E. subst k0.
      apply str_eqb_neq in Hne. now rewrite Hne.
    + destruct (str_eqb k0 k'); auto.
Qed.

Lemma dict_keys_set d k v x :
  In x (dict_keys (dict_set d k v)) -> x = k \/ In x (dict_keys d).
Proof.
  induction d as [|[k0 v0] d IH]; simpl.
  - intros [<-|[]]. now left.
  - destruct (str_eqb k0 k) eqn:E; simpl.
    + intros [<-|H]; auto.
    + intros [<-|H]; auto. destruct (IH H); auto.
Qed.


Lemma keys_lower_set d k v :
  keys_lower d -> lower k = k -> keys_lower (dict_set d k v).
Proof.
  unfold keys_lower. rewrite !Forall_forall. intros Hd Hk x Hx.
  apply dict_keys_set in Hx as [->|Hx]; auto.
Qed.

End DictFacts.

(** ** Running the monad *)

Lemma run_ret {A B : Type} (a : A) (k : A -> M B) (w : World) :
  (x <- ret a ;; k x) w = k a w.
Proof. reflexivity. Qed.

Lemma run_print {B : Type} (s : str) (k : M B) (w : World) :
  (print s ;; k) w = k (shows (s ++ [LF]) w).
Proof. reflexivity. Qed.

Lemma run_input {B : Type} (prompt : str) (k : str -> M B) (w : World)
      (line : str) (rest : list str) :
  stdin w = line :: rest ->
  (x <- input prompt ;; k x) w = k line (reads rest (shows prompt w)).
Proof.
  intros H. unfold bind, input, write_stdout, read_line, bind. simpl.
  now rewrite H.
Qed.

Lemma run_input_eof {B : Type} (prompt : str) (k : str -> M B) (w : World) :
  stdin w = [] ->
  (x <- input prompt ;; k x) w = (Raise EOFError, shows prompt w).
Proof.
  intros H. unfold bind, input, write_stdout, read_line, bind. simpl.
  now rewrite H.
Qed.

Lemma run_get_cities {B : Type} (k : city_directory -> M B) (w : World) :
  (d <- get_cities ;; k d) w = k (cities w) w.
Proof. reflexivity. Qed.


Lemma set_cities_same (w : World) : set_cities (cities w) w = w.
Proof. now destruct w. Qed.

(** ** The validator *)

Lemma validate_name_run (name : str) (w : World) :
  validate_name name w =
  match name with
  | [] => (Ret false,
           shows ("Invalid input. Please enter a valid name." ++ [LF]) w)
  | _ :: _ =>
      if isalpha (replace_with_empty SPACE name) then (Ret true, w)
      else (Ret false, shows ("Name should only contain letters." ++ [LF]) w)
  end.
Proof.
  destruct name as [|c t]; [reflexivity|].
  unfold validate_name.
  destruct (isalpha (replace_with_empty SPACE (c :: t))); reflexivity.
Qed.


Lemma In_replace_with_empty (old c : ascii) (s : str) :
  In c (replace_with_empty old s) <-> In c s /\ c <> old.
Proof.
  unfold replace_with_empty. rewrite filter_In.
  destruct (Ascii.eqb c old) eqn:E; simpl.
  - apply Ascii.eqb_eq in E. split; [intros [_ H]; discriminate|].
    intros [_ H]; contradiction.
  - apply Ascii.eqb_neq in E. tauto.
Qed.



(** ** The lookup *)

(** C5: a query whose lowering is a key of the directory is a hit, printed
    with the title-cased query, the stored county and the stored prefix; a
    query whose lowering is not a key is a miss; the directory is the same
    afterwards. *)
Theorem lookup_city_correct (city_name key : str) (w : World) :
  lower city_name = key ->
  (forall county p,
      dict_get (cities w) key = Some (county, p) ->
      lookup_city city_name w =
      (Ret true,
       shows ((title city_name ++ " is in " ++ county
               ++ " County (License Prefix " ++ format_prefix p ++ ")")
              ++ [LF]) w)) /\
  (dict_get (cities w) key = None ->
   lookup_city city_name w = (Ret false, w)) /\
  cities (snd (lookup_city city_name w)) = cities w.
Proof.
  intros <-. unfold lookup_city. rewrite run_get_cities.
  destruct (dict_get (cities w) (lower city_name)) as [[county p]|] eqn:E.
  - repeat split.
    + intros county' p' [= <- <-]. reflexivity.
    + discriminate.
  - repeat split. discriminate.
Qed.

Lemma lookup_city_correct_witness :
  let w := mkWorld [] [] [] [] [("missoula" : str, ("Missoula" : str, PInt 4))] in
  lookup_city "MISSOULA" w =
    (Ret true,
     shows (("Missoula is in Missoula County (License Prefix 4)" : str) ++ [LF]) w)
  /\ lookup_city "Atlantis" w = (Ret false, w).
Proof.
  intros w. split.
  - destruct (lookup_city_correct "MISSOULA" "missoula" w eq_refl) as [Hit _].
    exact (Hit "Missoula" (PInt 4) eq_refl).
  - destruct (lookup_city_correct "Atlantis" "atlantis" w eq_refl) as [_ [Miss _]].
    exact (Miss eq_refl).
Defined.

(** ** The entry flow *)

Lemma is_y_or_n_cases (s : str) :
  is_y_or_n s = true -> s = ("y" : str) \/ s = ("n" : str).
Proof.
  unfold is_y_or_n. intros H. apply orb_true_iff in H as [H|H];
    apply str_eqb_eq in H; auto.
Qed.

(** The first prompt with an answer that is neither "y" nor "n". *)
Lemma unknown_city_invalid_answer fuel city_name w answer rest :
  stdin w = answer :: rest ->
  is_y_or_n (lower answer) = false ->
  unknown_city (S fuel) city_name w =
  unknown_city fuel city_name
    (shows (("Invalid input. Please type 'y' or 'n'." : str) ++ [LF])
       (reads rest (shows (ask_want_add city_name) w))).
Proof.
  intros Hin Hyn. cbn [unknown_city].
  rewrite (run_input _ _ _ _ _ Hin). rewrite Hyn. reflexivity.
Qed.

(** The first prompt answered "n". *)
Lemma unknown_city_declined fuel city_name w answer rest :
  stdin w = answer :: rest ->
  lower answer = ("n" : str) ->
  unknown_city (S fuel) city_name w =
  (Ret tt, reads rest (shows (ask_want_add city_name) w)).
Proof.
  intros Hin Hn. cbn [unknown_city].
  rewrite (run_input _ _ _ _ _ Hin). rewrite Hn. reflexivity.
Qed.

(** The first prompt answered "y" and a county name given. *)
Lemma unknown_city_county fuel city_name w answer county_answer rest :
  stdin w = answer :: county_answer :: rest ->
  lower answer = ("y" : str) ->
  let county_name := title (strip county_answer) in
  let w1 := reads rest (shows (ask_county city_name)
                          (reads (county_answer :: rest)
                             (shows (ask_want_add city_name) w))) in
  unknown_city (S fuel) city_name w =
  (valid <- validate_name county_name ;;
   if negb valid then unknown_city fuel city_name
   else
     cities <- get_cities ;;
     let p := prefix_to_use cities county_name in
     exit <- confirm_loop fuel city_name county_name p ;;
     match exit with
     | Break => unknown_city fuel city_name
     | Return => ret tt
     end) w1.
Proof.
  intros Hin Hy. cbn [unknown_city].
  rewrite (run_input _ _ _ _ _ Hin). rewrite Hy.
  change (negb (is_y_or_n ("y" : str))) with false. cbv iota.
  change (str_eqb ("y" : str) ("n" : str)) with false. cbv iota.
  erewrite run_input by reflexivity. reflexivity.
Qed.

Lemma confirm_loop_invalid_answer fuel city_name county_name p w answer rest :
  stdin w = answer :: rest ->
  is_y_or_n (lower answer) = false ->
  confirm_loop (S fuel) city_name county_name p w =
  confirm_loop fuel city_name county_name p
    (shows (("Invalid input. Please type 'y' or 'n'." : str) ++ [LF])
       (reads rest (confirm_shown city_name county_name w))).
Proof.
  intros Hin Hyn. cbn [confirm_loop]. rewrite !run_print.
  erewrite run_input by exact Hin. rewrite Hyn. reflexivity.
Qed.

Lemma confirm_loop_no fuel city_name county_name p w answer rest :
  stdin w = answer :: rest ->
  lower answer = ("n" : str) ->
  confirm_loop (S fuel) city_name county_name p w =
  (Ret Break,
   shows (("Let's try again." : str) ++ [LF])
     (reads rest (confirm_shown city_name county_name w))).
Proof.
  intros Hin Hn. cbn [confirm_loop]. rewrite !run_print.
  erewrite run_input by exact Hin. rewrite Hn. reflexivity.
Qed.

Lemma confirm_loop_yes fuel city_name county_name p w answer rest :
  stdin w = answer :: rest ->
  lower answer = ("y" : str) ->
  confirm_loop (S fuel) city_name county_name p w =
  (Ret Return,
   committed city_name county_name p
     (reads rest (confirm_shown city_name county_name w))).
Proof.
  intros Hin Hy. cbn [confirm_loop]. rewrite !run_print.
  erewrite run_input by exact Hin. rewrite Hy. reflexivity.
Qed.

(** C7: when the first question of the entry flow is answered "n", after any
    number of answers that are neither "y" nor "n", the flow returns; the
    directory and the files are as they were. *)
Theorem decline_leaves_state (invalid : list str) :
  forall (fuel : nat) (city_name : str) (w : World) (answer : str)
         (rest : list str),
    stdin w = invalid ++ answer :: rest ->
    Forall (fun a => is_y_or_n (lower a) = false) invalid ->
    lower answer = ("n" : str) ->
    (List.length invalid < fuel)%nat ->
    exists w',
      unknown_city fuel city_name w = (Ret tt, w') /\
      cities w' = cities w /\
      text_files w' = text_files w /\
      csv_files w' = csv_files w /\
      stdin w' = rest.
Proof.
  induction invalid as [|a invalid IH]; intros fuel city_name w answer rest
    Hin Hinv Hn Hfuel; (destruct fuel as [|fuel]; [simpl in Hfuel; lia|]).
  - rewrite (unknown_city_declined _ _ _ _ _ Hin Hn).
    eexists. split; [reflexivity|]. repeat split.
  - inversion Hinv as [|? ? Ha Hinv']; subst.
    rewrite (unknown_city_invalid_answer _ _ _ _ _ Hin Ha).
    simpl in Hfuel.
    edestruct (IH fuel city_name) as [w' [Hrun [Hc [Ht [Hf Hs]]]]];
      [| exact Hinv' | exact Hn | lia | ].
    2:{ exists w'. split; [exact Hrun|]. now rewrite Hc, Ht, Hf, Hs. }
    reflexivity.
Qed.

Lemma decline_leaves_state_witness :
  let w := mkWorld [] [(CITY_FILE, "lolo,Missoula,4" : str)]
             [("maybe" : str); ("N" : str); ("x" : str)] []
             [("missoula" : str, ("Missoula" : str, PInt 4))] in
  exists w',
    unknown_city 2 "Atlantis" w = (Ret tt, w') /\
    cities w' = cities w /\
    text_files w' = text_files w /\
    csv_files w' = csv_files w /\
    stdin w' = [("x" : str)].
Proof.
  intros w.
  apply (decline_leaves_state [("maybe" : str)] 2 "Atlantis" w "N" [("x" : str)]).
  - reflexivity.
  - repeat constructor.
  - reflexivity.
  - simpl. lia.
Defined.

(** *** The standard output only grows *)

Lemma appends_ret {A : Type} (a : A) : appends (ret a).
Proof. intros w. exists []. simpl. now rewrite app_nil_r. Qed.

Lemma appends_raise {A : Type} (e : exn) : appends (@raise A e).
Proof. intros w. exists []. simpl. now rewrite app_nil_r. Qed.

Lemma appends_out_of_fuel {A : Type} : appends (@out_of_fuel A).
Proof. intros w. exists []. simpl. now rewrite app_nil_r. Qed.

Lemma appends_bind {A B : Type} (m : M A) (k : A -> M B) :
  appends m -> (forall a, appends (k a)) -> appends (x <- m ;; k x).
Proof.
  intros Hm Hk w. unfold bind. destruct (Hm w) as [l Hl].
  destruct (m w) as [[a| |] w1]; simpl in *; eauto.
  destruct (Hk a w1) as [l' Hl']. exists (l ++ l').
  now rewrite Hl', Hl, app_assoc.
Qed.

Lemma appends_write_stdout (s : str) : appends (write_stdout s).
Proof. intros w. now exists [s]. Qed.

Lemma appends_print (s : str) : appends (print s).
Proof. apply appends_write_stdout. Qed.

Lemma appends_read_line : appends read_line.
Proof.
  intros w. exists []. unfold read_line.
  destruct (stdin w); simpl; now rewrite app_nil_r.
Qed.

Lemma appends_input (prompt : str) : appends (input prompt).
Proof.
  apply appends_bind; [apply appends_write_stdout|].
  intros _. apply appends_read_line.
Qed.

Lemma appends_get_cities : appends get_cities.
Proof. intros w. exists []. simpl. now rewrite app_nil_r. Qed.

Lemma appends_cities_setitem k v : appends (cities_setitem k v).
Proof. intros w. exists []. simpl. now rewrite app_nil_r. Qed.

Lemma appends_save_new_city c n p : appends (save_new_city c n p).
Proof. intros w. exists []. simpl. now rewrite app_nil_r. Qed.

Lemma appends_validate_name (name : str) : appends (validate_name name).
Proof.
  intros w. rewrite validate_name_run. destruct name as [|c t].
  - eexists. reflexivity.
  - destruct (isalpha _); [exists []; simpl; now rewrite app_nil_r|].
    eexists. reflexivity.
Qed.

Create HintDb appends.

#[local] Hint Resolve appends_ret appends_raise appends_out_of_fuel
  appends_print appends_read_line appends_input appends_get_cities
  appends_cities_setitem appends_save_new_city appends_validate_name
  appends_write_stdout : appends.

Ltac appends_step :=
  first
    [ progress auto with appends
    | apply appends_bind; [|intros ?]
    | match goal with
      | |- appends (if ?b then _ else _) => destruct b
      | |- appends (match ?x with _ => _ end) => destruct x
      | |- appends (let _ := _ in _) => cbv zeta
      end ].

Lemma appends_confirm_loop fuel city_name county_name p :
  appends (confirm_loop fuel city_name county_name p).
Proof.
  induction fuel as [|fuel IH]; cbn [confirm_loop]; repeat appends_step.
Qed.

#[local] Hint Resolve appends_confirm_loop : appends.



Lemma validate_name_true (name : str) (w : World) :
  fst (validate_name name w) = Ret true ->
  validate_name name w = (Ret true, w).
Proof.
  rewrite validate_name_run. destruct name as [|c t]; [discriminate|].
  destruct (isalpha _); [reflexivity|discriminate].
Qed.

Lemma validate_name_false (name : str) (w : World) :
  fst (validate_name name w) = Ret false ->
  validate_name name w = (Ret false, snd (validate_name name w)).
Proof.
  intros H. destruct (validate_name name w) as [r w1]. simpl in *. now subst.
Qed.

Lemma validate_name_total (name : str) (w : World) :
  fst (validate_name name w) = Ret true \/
  fst (validate_name name w) = Ret false.
Proof.
  rewrite validate_name_run. destruct name as [|c t]; [now right|].
  destruct (isalpha _); auto.
Qed.




(** *** What a run of the entry flow does to the directory and the files *)

Lemma same_store_refl w : same_store w w.
Proof. repeat split. Qed.

Lemma same_store_trans w1 w2 w3 :
  same_store w1 w2 -> same_store w2 w3 -> same_store w1 w3.
Proof.
  intros [A [B C]] [A' [B' C']]. repeat split; congruence.
Qed.

Lemma same_store_shows s w : same_store w (shows s w).
Proof. repeat split. Qed.

Lemma same_store_reads l w : same_store w (reads l w).
Proof. repeat split. Qed.

Lemma same_store_validate name w : same_store w (snd (validate_name name w)).
Proof.
  rewrite validate_name_run. destruct name as [|c t]; [repeat split|].
  destruct (isalpha _); repeat split.
Qed.

Lemma commit_of_same_store city county p w0 w w' :
  same_store w0 w -> commit_of city county p w w' ->
  commit_of city county p w0 w'.
Proof.
  intros [A [B C]] [A' [B' C']]. unfold commit_of, file_content in *.
  rewrite A, B in *. repeat split; congruence.
Qed.

Lemma validate_name_fst (name : str) (w w' : World) :
  fst (validate_name name w) = fst (validate_name name w').
Proof.
  rewrite !validate_name_run. destruct name as [|c t]; [reflexivity|].
  destruct (isalpha _); reflexivity.
Qed.

Lemma confirm_loop_outcome fuel city_name county_name p :
  forall w r w',
    confirm_loop fuel city_name county_name p w = (r, w') ->
    (r = Ret Return /\ commit_of city_name county_name p w w') \/
    (r <> Ret Return /\ same_store w w').
Proof.
  induction fuel as [|fuel IH]; intros w r w' Hrun.
  - inversion Hrun; subst. right. split; [discriminate|apply same_store_refl].
  - destruct (stdin w) as [|answer rest] eqn:Hin.
    + cbn [confirm_loop] in Hrun. rewrite !run_print in Hrun.
      rewrite run_input_eof in Hrun by exact Hin.
      inversion Hrun; subst. right. split; [discriminate|repeat split].
    + destruct (is_y_or_n (lower answer)) eqn:Hyn.
      * apply is_y_or_n_cases in Hyn as [Hy|Hn].
        -- rewrite (confirm_loop_yes _ _ _ _ _ _ _ Hin Hy) in Hrun.
           inversion Hrun; subst. left. split; [reflexivity|].
           repeat split.
        -- rewrite (confirm_loop_no _ _ _ _ _ _ _ Hin Hn) in Hrun.
           inversion Hrun; subst. right. split; [discriminate|repeat split].
      * rewrite (confirm_loop_invalid_answer _ _ _ _ _ _ _ Hin Hyn) in Hrun.
        apply IH in Hrun as [[Hr Hc]|[Hr Hs]]; [left|right]; split;
          assumption.
Qed.

(** A run of [unknown_city] either leaves the directory and the files as
    they were, or returns after the commit of one entry: the county is an
    answer stripped and title-cased, it passed the validator, and the prefix
    is the one inferred from the directory as it was. *)
Lemma unknown_city_outcome fuel city_name :
  forall w r w',
    unknown_city fuel city_name w = (r, w') ->
    same_store w w' \/
    (r = Ret tt /\
     exists county_answer,
       fst (validate_name (title (strip county_answer)) w) = Ret true /\
       commit_of city_name (title (strip county_answer))
         (prefix_to_use (cities w) (title (strip county_answer))) w w').
Proof.
  assert (forall w0 w1 r w',
             same_store w0 w1 ->
             (same_store w1 w' \/
              (r = Ret tt /\
               exists county_answer,
                 fst (validate_name (title (strip county_answer)) w1) = Ret true /\
                 commit_of city_name (title (strip county_answer))
                   (prefix_to_use (cities w1) (title (strip county_answer)))
                   w1 w')) ->
             same_store w0 w' \/
             (r = Ret tt /\
              exists county_answer,
                fst (validate_name (title (strip county_answer)) w0) = Ret true /\
                commit_of city_name (title (strip county_answer))
                  (prefix_to_use (cities w0) (title (strip county_answer)))
                  w0 w')) as Hback.
  { intros w0 w1 r w' Hs [Hs'|[Hr [ca [Hv Hc]]]].
    - left. eapply same_store_trans; eassumption.
    - right. split; [exact Hr|]. exists ca. split.
      + erewrite validate_name_fst. exact Hv.
      + destruct Hs as [Hcities Hfiles]. rewrite <- Hcities.
        eapply commit_of_same_store; [|exact Hc].
        split; [exact Hcities|exact Hfiles]. }
  induction fuel as [|fuel IH]; intros w r w' Hrun.
  - inversion Hrun; subst. left. apply same_store_refl.
  - destruct (stdin w) as [|answer rest] eqn:Hin.
    { cbn [unknown_city] in Hrun.
      rewrite run_input_eof in Hrun by exact Hin.
      inversion Hrun; subst. left. repeat split. }
    destruct (is_y_or_n (lower answer)) eqn:Hyn.
    2:{ rewrite (unknown_city_invalid_answer _ _ _ _ _ Hin Hyn) in Hrun.
        apply IH in Hrun. eapply Hback; [|exact Hrun]. repeat split. }
    apply is_y_or_n_cases in Hyn as [Hy|Hn].
    2:{ rewrite (unknown_city_declined _ _ _ _ _ Hin Hn) in Hrun.
        inversion Hrun; subst. left. repeat split. }
    destruct rest as [|county_answer rest].
    { cbn [unknown_city] in Hrun.
      rewrite (run_input _ _ _ _ _ Hin) in Hrun. rewrite Hy in Hrun.
      change (negb (is_y_or_n ("y" : str))) with false in Hrun.
      cbv iota in Hrun.
      change (str_eqb ("y" : str) ("n" : str)) with false in Hrun.
      cbv iota in Hrun.
      rewrite run_input_eof in Hrun by reflexivity.
      inversion Hrun; subst. left. repeat split. }
    rewrite (unknown_city_county _ _ _ _ _ _ Hin Hy) in Hrun.
    cbv zeta in Hrun.
    set (county_name := title (strip county_answer)) in *.
    set (w1 := reads rest _) in Hrun.
    assert (same_store w w1) as Hw1 by repeat split.
    unfold bind at 1 in Hrun.
    destruct (validate_name_total county_name w1) as [Hv|Hv].
    + rewrite (validate_name_true _ _ Hv) in Hrun. cbv iota beta in Hrun.
      change (negb true) with false in Hrun. cbv iota in Hrun.
      rewrite run_get_cities in Hrun. cbv zeta in Hrun.
      unfold bind at 1 in Hrun.
      destruct (confirm_loop fuel city_name county_name
                  (prefix_to_use (cities w1) county_name) w1)
        as [r2 w2] eqn:Hconfirm.
      apply confirm_loop_outcome in Hconfirm as [[-> Hc]|[Hr Hs]].
      * inversion Hrun; subst. eapply Hback; [exact Hw1|]. right.
        split; [reflexivity|]. exists county_answer. split; assumption.
      * destruct r2 as [[|]| |].
        -- apply IH in Hrun. eapply Hback; [|exact Hrun].
           eapply same_store_trans; eassumption.
        -- contradiction Hr; reflexivity.
        -- inversion Hrun; subst. left.
           eapply same_store_trans; eassumption.
        -- inversion Hrun; subst. left.
           eapply same_store_trans; eassumption.
    + rewrite (validate_name_false _ _ Hv) in Hrun. cbv iota beta in Hrun.
      change (negb false) with true in Hrun. cbv iota in Hrun.
      apply IH in Hrun. eapply Hback; [|exact Hrun].
      eapply same_store_trans; [exact Hw1|apply same_store_validate].
Qed.

(** *** The inferred prefix *)

Lemma scan_existing_prefix_first before county0 p0 after county_name :
  Forall (fun rec : city_record => lower (fst rec) <> lower county_name) before ->
  lower county0 = lower county_name ->
  scan_existing_prefix (before ++ (county0, p0) :: after) county_name = Some p0.
Proof.
  intros Hbefore Hmatch. induction Hbefore as [|[c q] before Hc _ IH]; simpl.
  - rewrite Hmatch. now rewrite str_eqb_refl.
  - simpl in Hc. apply str_eqb_neq in Hc. now rewrite Hc.
Qed.

Lemma scan_existing_prefix_none values county_name :
  Forall (fun rec : city_record => lower (fst rec) <> lower county_name) values ->
  scan_existing_prefix values county_name = None.
Proof.
  intros H. induction H as [|[c q] values Hc _ IH]; simpl; [reflexivity|].
  simpl in Hc. apply str_eqb_neq in Hc. now rewrite Hc.
Qed.

(** C2: when the entry flow, entered on a lookup miss, has added the city
    with a county and a prefix, the county passed the validator, and the
    prefix is the stored prefix of the first value of the directory, in scan
    order, whose county equals the new county up to case; when no value has
    such a county, the prefix is the text "unknown". *)
Theorem prefix_inference (fuel : nat) (city_name : str) (w w' : World)
        (r : outcome unit) (county_name : str) (p : prefix) :
  unknown_city fuel city_name w = (r, w') ->
  dict_get (cities w) (lower city_name) = None ->
  dict_get (cities w') (lower city_name) = Some (county_name, p) ->
  fst (validate_name county_name w) = Ret true /\
  (forall before county0 p0 after,
      dict_values (cities w) = before ++ (county0, p0) :: after ->
      Forall (fun rec : city_record => lower (fst rec) <> lower county_name)
             before ->
      lower county0 = lower county_name ->
      p = p0) /\
  (Forall (fun rec : city_record => lower (fst rec) <> lower county_name)
          (dict_values (cities w)) ->
   p = PStr "unknown").
Proof.
  intros Hrun Hmiss Hhit.
  apply unknown_city_outcome in Hrun as [[Hc _]|[_ [ca [Hv [Hc _]]]]].
  - rewrite Hc in Hhit. congruence.
  - rewrite Hc, dict_get_set_same in Hhit.
    injection Hhit as Hcounty Hp. rewrite Hcounty in *.
    split; [exact Hv|]. unfold prefix_to_use in Hp. split.
    + intros before county0 p0 after Hvalues Hbefore Hmatch.
      rewrite Hvalues in Hp.
      rewrite (scan_existing_prefix_first _ _ _ _ _ Hbefore Hmatch) in Hp.
      now symmetry.
    + intros Hnone. rewrite (scan_existing_prefix_none _ _ Hnone) in Hp.
      now symmetry.
Qed.

Lemma prefix_inference_witness :
  let w := mkWorld [] []
             [("y" : str); (" lake " : str); ("y" : str)] []
             [("helena" : str, ("Lewis and Clark" : str, PInt 5));
              ("polson" : str, ("LAKE" : str, PInt 15));
              ("ronan" : str, ("Lake" : str, PStr "15"))] in
  let w' := snd (unknown_city 2 "Pablo" w) in
  dict_get (cities w') "pablo" = Some ("Lake" : str, PInt 15) /\
  (forall before county0 p0 after,
      dict_values (cities w) = before ++ (county0, p0) :: after ->
      Forall (fun rec : city_record => lower (fst rec) <> lower "Lake") before ->
      lower county0 = lower "Lake" ->
      PInt 15 = p0).
Proof.
  intros w w'.
  assert (unknown_city 2 "Pablo" w = (Ret tt, w')) as Hrun
      by (vm_compute; reflexivity).
  assert (dict_get (cities w) (lower "Pablo") = None) as Hmiss
      by (vm_compute; reflexivity).
  assert (dict_get (cities w') (lower "Pablo") = Some ("Lake" : str, PInt 15))
    as Hhit by (vm_compute; reflexivity).
  split; [exact Hhit|].
  exact (proj1 (proj2 (prefix_inference 2 "Pablo" w w' (Ret tt) "Lake" (PInt 15)
                         Hrun Hmiss Hhit))).
Defined.

(** ** The loaders *)

Lemma split_cons (sep : ascii) (s : str) :
  exists part rest, split sep s = part :: rest.
Proof.
  induction s as [|c t [part [rest IH]]]; simpl; [eauto|].
  destruct (Ascii.eqb c sep); [eauto|]. rewrite IH. eauto.
Qed.

Lemma load_user_line_run (line : str) (w : World) :
  load_user_line line w =
  match user_line_effect line (cities w) with
  | Some d => (Ret tt, set_cities d w)
  | None => (Raise IndexError, w)
  end.
Proof.
  unfold load_user_line, user_line_effect.
  destruct (strip line) as [|c t] eqn:Hs.
  - simpl. now rewrite set_cities_same.
  - destruct (split_cons COMMA (c :: t)) as [part0 [rest Hsplit]].
    rewrite Hsplit. destruct rest as [|part1 [|part2 rest]]; reflexivity.
Qed.

Lemma load_user_lines_cons (line : str) (rest : list str) (w : World) :
  load_user_lines (line :: rest) w =
  match user_line_effect line (cities w) with
  | Some d => load_user_lines rest (set_cities d w)
  | None => (Raise IndexError, w)
  end.
Proof.
  cbn [load_user_lines]. unfold bind. rewrite load_user_line_run.
  destruct (user_line_effect line (cities w)); reflexivity.
Qed.

Lemma load_user_lines_app (l1 l2 : list str) (w : World) :
  load_user_lines (l1 ++ l2) w =
  match load_user_lines l1 w with
  | (Ret _, w1) => load_user_lines l2 w1
  | other => other
  end.
Proof.
  revert w. induction l1 as [|line l1 IH]; intros w; [reflexivity|].
  rewrite <- app_comm_cons, !load_user_lines_cons.
  destruct (user_line_effect line (cities w)); [apply IH|reflexivity].
Qed.

(** The user store is loaded from the lines alone: the outcome and the
    directory do not depend on the rest of the world. *)
Lemma load_user_lines_frame (lines : list str) :
  forall w1 w2,
    cities w1 = cities w2 ->
    fst (load_user_lines lines w1) = fst (load_user_lines lines w2) /\
    cities (snd (load_user_lines lines w1)) =
    cities (snd (load_user_lines lines w2)).
Proof.
  induction lines as [|line lines IH]; intros w1 w2 Hc; [now split|].
  rewrite !load_user_lines_cons, Hc.
  destruct (user_line_effect line (cities w2)); [|now split].
  apply IH. reflexivity.
Qed.

Lemma load_user_lines_others (lines : list str) :
  forall w,
    csv_files (snd (load_user_lines lines w)) = csv_files w /\
    text_files (snd (load_user_lines lines w)) = text_files w /\
    stdin (snd (load_user_lines lines w)) = stdin w /\
    stdout (snd (load_user_lines lines w)) = stdout w.
Proof.
  induction lines as [|line lines IH]; intros w; [repeat split|].
  rewrite load_user_lines_cons.
  destruct (user_line_effect line (cities w)); [|repeat split].
  destruct (IH (set_cities c w)) as [A [B [C D]]]. repeat split; assumption.
Qed.

Lemma load_initial_rows_entry row rest acc w city record :
  row_entry row = Some (city, record) ->
  load_initial_rows (row :: rest) acc w =
  load_initial_rows rest (dict_set acc city record) w.
Proof.
  cbn [load_initial_rows]. unfold row_entry, row_getitem, value_strip, int.
  destruct (dict_get row "city") as [[c|]|]; try discriminate.
  destruct (dict_get row "county") as [[c'|]|]; try discriminate.
  destruct (dict_get row "prefix") as [[q|]|]; try discriminate.
  cbv beta iota delta [bind ret raise].
  destruct (int_of_str q) as [n|]; [|discriminate].
  intros [= <- <-]. reflexivity.
Qed.

Lemma load_initial_rows_bad row rest acc :
  row_entry row = None ->
  exists e, forall w, load_initial_rows (row :: rest) acc w = (Raise e, w).
Proof.
  cbn [load_initial_rows]. unfold row_entry, row_getitem, value_strip, int.
  destruct (dict_get row "city") as [[c|]|];
    [|intros _; eexists; intros w; reflexivity..].
  destruct (dict_get row "county") as [[c'|]|];
    [|intros _; eexists; intros w; reflexivity..].
  destruct (dict_get row "prefix") as [[q|]|];
    [|intros _; eexists; intros w; reflexivity..].
  cbv beta iota delta [bind ret raise].
  destruct (int_of_str q) as [n|]; [discriminate|].
  intros _; eexists; intros w; reflexivity.
Qed.

(** *** Keys are lower case *)

Lemma row_entry_key_lower row city record :
  row_entry row = Some (city, record) -> lower city = city.
Proof.
  unfold row_entry.
  destruct (dict_get row "city") as [[c|]|]; try discriminate.
  destruct (dict_get row "county") as [[c'|]|]; try discriminate.
  destruct (dict_get row "prefix") as [[q|]|]; try discriminate.
  destruct (int_of_str q); [|discriminate].
  intros [= <- _]. apply lower_idem.
Qed.

Lemma load_initial_rows_keys_lower reader :
  forall acc w d w',
    keys_lower acc ->
    load_initial_rows reader acc w = (Ret d, w') ->
    keys_lower d.
Proof.
  induction reader as [|row reader IH]; intros acc w d w' Hacc Hrun.
  - inversion Hrun; subst. exact Hacc.
  - destruct (row_entry row) as [[city record]|] eqn:Hentry.
    + rewrite (load_initial_rows_entry _ _ _ _ _ _ Hentry) in Hrun.
      eapply IH; [|exact Hrun].
      apply keys_lower_set; [exact Hacc|].
      eapply row_entry_key_lower; exact Hentry.
    + destruct (load_initial_rows_bad _ reader acc Hentry) as [e He].
      rewrite He in Hrun. discriminate.
Qed.

Lemma user_line_effect_keys_lower line d d' :
  keys_lower d -> user_line_effect line d = Some d' -> keys_lower d'.
Proof.
  intros Hd. unfold user_line_effect.
  destruct (strip line) as [|c t]; [now intros [= <-]|].
  destruct (split COMMA (c :: t)) as [|part0 [|part1 rest]]; try discriminate.
  intros [= <-]. apply keys_lower_set; [exact Hd|apply lower_idem].
Qed.

Lemma load_user_lines_keys_lower lines :
  forall w,
    keys_lower (cities w) ->
    keys_lower (cities (snd (load_user_lines lines w))).
Proof.
  induction lines as [|line lines IH]; intros w Hw; [exact Hw|].
  rewrite load_user_lines_cons.
  destruct (user_line_effect line (cities w)) as [d|] eqn:Hline; [|exact Hw].
  apply IH. simpl. eapply user_line_effect_keys_lower; eassumption.
Qed.

(** C9: the keys of the directory are lower case, and stay so: the directory
    [load_initial_cities] returns has lower-case keys, and [load_user_cities]
    and [unknown_city] keep the keys of the directory lower case, however
    they end. *)
Theorem lowercase_keys_preserved :
  (forall csv_file w d w',
      load_initial_cities csv_file w = (Ret d, w') -> keys_lower d) /\
  (forall file_path w,
      keys_lower (cities w) ->
      keys_lower (cities (snd (load_user_cities file_path w)))) /\
  (forall fuel city_name w,
      keys_lower (cities w) ->
      keys_lower (cities (snd (unknown_city fuel city_name w)))).
Proof.
  split; [|split].
  - intros csv_file w d w' Hrun.
    unfold load_initial_cities, bind, open_csv_reader in Hrun.
    destruct (dict_get (csv_files w) csv_file) as [rows|]; [|discriminate].
    eapply load_initial_rows_keys_lower; [|exact Hrun]. constructor.
  - intros file_path w Hw.
    unfold load_user_cities, bind, open_read_lines.
    destruct (dict_get (text_files w) file_path) as [content|]; [|exact Hw].
    apply load_user_lines_keys_lower. exact Hw.
  - intros fuel city_name w Hw.
    destruct (unknown_city fuel city_name w) as [r w'] eqn:Hrun.
    apply unknown_city_outcome in Hrun as [[Hc _]|[_ [ca [_ [Hc _]]]]];
      simpl; rewrite Hc; [exact Hw|].
    apply keys_lower_set; [exact Hw|apply lower_idem].
Qed.

Lemma lowercase_keys_preserved_witness :
  let header := [("city" : str); ("county" : str); ("prefix" : str)] in
  let w := mkWorld
             [(CSV_FILE, [header; [(" Missoula" : str); ("Missoula" : str); ("4" : str)]])]
             [(CITY_FILE, ("LoLo,Missoula,4" : str) ++ [LF])]
             [("y" : str); ("Teton" : str); ("Y" : str)] [] [] in
  keys_lower (cities (snd (load_data w))) /\
  keys_lower (cities (snd (unknown_city 2 "Choteau" (snd (load_data w))))).
Proof.
  intros header w.
  destruct lowercase_keys_preserved as [Hinitial [Huser Hflow]].
  assert (keys_lower (cities (snd (load_data w)))) as Hloaded.
  { assert (load_initial_cities CSV_FILE w
            = (Ret [("missoula" : str, ("Missoula" : str, PInt 4))], w)) as Hrun
        by (vm_compute; reflexivity).
    pose proof (Hinitial _ _ _ _ Hrun) as Hkeys.
    exact (Huser CITY_FILE
             (set_cities [("missoula" : str, ("Missoula" : str, PInt 4))] w)
             Hkeys). }
  split; [exact Hloaded|]. apply Hflow. exact Hloaded.
Defined.

(** *** Lines of the user store with a single field *)

Lemma split_no_sep (sep : ascii) (s : str) :
  existsb (Ascii.eqb sep) s = false -> split sep s = [s].
Proof.
  induction s as [|c t IH]; simpl; [reflexivity|].
  rewrite (Ascii.eqb_sym sep c). intros H.
  apply orb_false_iff in H as [Hc Ht]. rewrite Hc, (IH Ht). reflexivity.
Qed.

Lemma split_with_sep (sep : ascii) (s : str) :
  existsb (Ascii.eqb sep) s = true ->
  exists part0 part1 rest, split sep s = part0 :: part1 :: rest.
Proof.
  induction s as [|c t IH]; simpl; [discriminate|].
  rewrite (Ascii.eqb_sym sep c). destruct (Ascii.eqb c sep); simpl.
  - intros _. destruct (split_cons sep t) as [part [rest H]]. rewrite H. eauto.
  - intros H. destruct (IH H) as [part0 [part1 [rest Hs]]]. rewrite Hs. eauto.
Qed.

Lemma user_line_effect_none (line : str) (d : city_directory) :
  user_line_effect line d = None <-> single_field line = true.
Proof.
  unfold user_line_effect, single_field.
  destruct (strip line) as [|c t]; [split; discriminate|].
  destruct (existsb (Ascii.eqb COMMA) (c :: t)) eqn:E.
  - destruct (split_with_sep _ _ E) as [part0 [part1 [rest Hs]]].
    rewrite Hs. split; discriminate.
  - rewrite (split_no_sep _ _ E). split; reflexivity.
Qed.

Lemma load_user_lines_outcome (lines : list str) :
  forall w,
    fst (load_user_lines lines w) =
    if existsb single_field lines then Raise IndexError else Ret tt.
Proof.
  induction lines as [|line lines IH]; intros w; [reflexivity|].
  rewrite load_user_lines_cons. simpl.
  destruct (user_line_effect line (cities w)) as [d|] eqn:Hline.
  - destruct (single_field line) eqn:Hsingle.
    + apply (user_line_effect_none line (cities w)) in Hsingle. congruence.
    + simpl. apply IH.
  - apply user_line_effect_none in Hline. now rewrite Hline.
Qed.

(** C10: when the user store has a line that is not blank and has no comma,
    [load_user_cities] raises [IndexError]; when every line that is not
    blank has a comma, it returns. *)
Theorem load_user_cities_single_field (file_path content : str) (w : World) :
  dict_get (text_files w) file_path = Some content ->
  (existsb single_field (file_lines content) = true ->
   fst (load_user_cities file_path w) = Raise IndexError) /\
  (existsb single_field (file_lines content) = false ->
   fst (load_user_cities file_path w) = Ret tt).
Proof.
  intros Hfile. unfold load_user_cities, bind, open_read_lines.
  rewrite Hfile. rewrite load_user_lines_outcome.
  split; intros ->; reflexivity.
Qed.

Lemma load_user_cities_single_field_witness :
  let bad := mkWorld [] [(CITY_FILE, ("lolo,Missoula,4" : str) ++ [LF]
                                       ++ "Hamilton" ++ [LF])] [] [] [] in
  let good := mkWorld [] [(CITY_FILE, ("lolo,Missoula,4" : str) ++ [LF]
                                        ++ "   " ++ [LF] ++ "Hamilton,Ravalli")]
                [] [] [] in
  fst (load_user_cities CITY_FILE bad) = Raise IndexError /\
  fst (load_user_cities CITY_FILE good) = Ret tt.
Proof.
  intros bad good. split.
  - apply (load_user_cities_single_field CITY_FILE _ bad eq_refl).
    vm_compute. reflexivity.
  - apply (load_user_cities_single_field CITY_FILE _ good eq_refl).
    vm_compute. reflexivity.
Defined.

(** *** The reference file *)












(** ** Stripping *)

Lemma lstrip_nonspace (c : ascii) (t : str) :
  is_space c = false -> lstrip (c :: t) = c :: t.
Proof. intros H. simpl. now rewrite H. Qed.

Lemma lstrip_result (s : str) :
  lstrip s = [] \/ exists c t, lstrip s = c :: t /\ is_space c = false.
Proof.
  induction s as [|c t IH]; [now left|]. simpl.
  destruct (is_space c) eqn:E; [exact IH|]. right. eauto.
Qed.

Lemma lstrip_app_nonspace (x y : str) (c : ascii) :
  is_space c = false -> lstrip (x ++ c :: y) = lstrip x ++ c :: y.
Proof.
  intros H. induction x as [|a x IH]; simpl.
  - now rewrite H.
  - destruct (is_space a); [exact IH|reflexivity].
Qed.

Lemma rstrip_cons_nonspace (c : ascii) (t : str) :
  is_space c = false -> rstrip (c :: t) = c :: rstrip t.
Proof.
  intros H. unfold rstrip. simpl rev.
  rewrite (lstrip_app_nonspace _ [] _ H), rev_app_distr. reflexivity.
Qed.

Lemma rstrip_result (s : str) :
  rstrip s = [] \/ exists u d, rstrip s = u ++ [d] /\ is_space d = false.
Proof.
  unfold rstrip. destruct (lstrip_result (rev s)) as [H|[d [t [H Hd]]]];
    rewrite H; [now left|].
  right. exists (rev t), d. split; [reflexivity|exact Hd].
Qed.

Lemma rstrip_app_space (s : str) (c : ascii) :
  is_space c = true -> rstrip (s ++ [c]) = rstrip s.
Proof.
  intros H. unfold rstrip. rewrite rev_app_distr. simpl. now rewrite H.
Qed.

Lemma stripped_strip (s : str) : stripped (strip s) = true.
Proof.
  unfold strip. destruct (lstrip_result s) as [H|[c [t [H Hc]]]]; rewrite H;
    [reflexivity|].
  rewrite (rstrip_cons_nonspace _ _ Hc). unfold stripped.
  cbn [hd]. rewrite Hc.
  destruct (rstrip_result t) as [Ht|[u [d [Ht Hd]]]]; rewrite Ht.
  - simpl. now rewrite Hc.
  - rewrite app_comm_cons, last_last. now rewrite Hd.
Qed.

Lemma rstrip_app_nonspace (u : str) (d : ascii) :
  is_space d = false -> rstrip (u ++ [d]) = u ++ [d].
Proof.
  intros H. unfold rstrip. rewrite rev_app_distr. simpl. rewrite H.
  simpl. now rewrite rev_involutive.
Qed.

Lemma strip_stripped (s : str) : stripped s = true -> strip s = s.
Proof.
  unfold stripped. intros H. apply andb_true_iff in H as [Hhd Hlast].
  apply negb_true_iff in Hhd, Hlast.
  destruct s as [|c t]; [reflexivity|]. simpl in Hhd.
  unfold strip. rewrite (lstrip_nonspace _ _ Hhd).
  assert (c :: t <> []) as Hne by discriminate.
  rewrite (app_removelast_last "x"%char Hne).
  apply rstrip_app_nonspace. exact Hlast.
Qed.

Lemma strip_line (body : str) (c : ascii) :
  stripped body = true -> body <> [] -> is_space c = true ->
  strip (body ++ [c]) = body.
Proof.
  intros Hs Hne Hc. unfold strip.
  destruct body as [|b t]; [contradiction|].
  assert (is_space b = false) as Hb.
  { unfold stripped in Hs. apply andb_true_iff in Hs as [Hs _].
    now apply negb_true_iff in Hs. }
  rewrite <- app_comm_cons, (lstrip_nonspace _ _ Hb), app_comm_cons.
  rewrite (rstrip_app_space _ _ Hc).
  pose proof (strip_stripped _ Hs) as H. unfold strip in H.
  now rewrite (lstrip_nonspace _ _ Hb) in H.
Qed.

Lemma last_map_space (f : ascii -> ascii) :
  (forall c, is_space (f c) = is_space c) ->
  forall s, is_space (last (map f s) "x"%char) = is_space (last s "x"%char).
Proof.
  intros Hf. induction s as [|c [|c' t] IH]; simpl in *; auto.
Qed.

Lemma stripped_lower (s : str) : stripped (lower s) = stripped s.
Proof.
  unfold stripped, lower. rewrite (last_map_space _ lower_char_space).
  destruct s as [|c t]; [reflexivity|]. simpl. now rewrite lower_char_space.
Qed.

Lemma title_from_last_space (s : str) :
  forall b,
    is_space (last (title_from b s) "x"%char) = is_space (last s "x"%char).
Proof.
  induction s as [|c [|c' t] IH]; intros b; simpl in *.
  - reflexivity.
  - destruct b; [apply lower_char_space|apply upper_char_space].
  - apply IH.
Qed.

Lemma stripped_title (s : str) : stripped (title s) = stripped s.
Proof.
  unfold stripped, title. rewrite title_from_last_space.
  destruct s as [|c t]; [reflexivity|]. simpl. now rewrite upper_char_space.
Qed.

(** ** Lines of a text file *)

Lemma plain_chars (c : ascii) :
  plain c = true -> c <> COMMA /\ c <> LF /\ c <> CR.
Proof.
  unfold plain. intros H. apply negb_true_iff in H.
  apply orb_false_iff in H as [H Hcr]. apply orb_false_iff in H as [Hc Hlf].
  now rewrite !Ascii.eqb_neq in *.
Qed.

Lemma within_line_chars (c : ascii) :
  within_line c = true -> c <> LF /\ c <> CR.
Proof.
  unfold within_line. intros H. apply negb_true_iff in H.
  apply orb_false_iff in H as [Hlf Hcr].
  now rewrite !Ascii.eqb_neq in *.
Qed.

Lemma plain_within_line (s : str) :
  forallb plain s = true -> forallb within_line s = true.
Proof.
  rewrite !forallb_forall. intros H c Hc.
  destruct (plain_chars c (H c Hc)) as [_ [Hlf Hcr]].
  unfold within_line. apply negb_true_iff, orb_false_iff.
  now rewrite !Ascii.eqb_neq.
Qed.

Lemma universal_newlines_no_CR (s : str) :
  forallb (fun c => negb (Ascii.eqb c CR)) s = true ->
  universal_newlines s = s.
Proof.
  induction s as [|c t IH]; [reflexivity|]. simpl. intros H.
  apply andb_true_iff in H as [Hc Ht]. apply negb_true_iff in Hc.
  rewrite Hc. now rewrite (IH Ht).
Qed.

Lemma universal_newlines_line (body : str) :
  forallb within_line body = true ->
  universal_newlines (body ++ [LF]) = body ++ [LF].
Proof.
  intros H. apply universal_newlines_no_CR. rewrite forallb_app.
  apply andb_true_iff. split; [|reflexivity].
  rewrite forallb_forall in *. intros c Hc.
  destruct (within_line_chars c (H c Hc)) as [_ Hcr].
  apply negb_true_iff. now apply Ascii.eqb_neq.
Qed.

Lemma universal_newlines_app_len (n : nat) :
  forall a b,
    (List.length a <= n)%nat ->
    hd "x"%char b <> LF ->
    universal_newlines (a ++ b) = universal_newlines a ++ universal_newlines b.
Proof.
  induction n as [|n IH]; intros a b Hlen Hb.
  - destruct a; [reflexivity|simpl in Hlen; lia].
  - destruct a as [|c t]; [reflexivity|]. simpl in Hlen.
    cbn [app universal_newlines].
    destruct (Ascii.eqb c CR) eqn:Ec.
    + destruct t as [|c' t'].
      * simpl app. destruct b as [|c' b']; [reflexivity|].
        simpl in Hb. apply Ascii.eqb_neq in Hb. now rewrite Hb.
      * cbn [app]. destruct (Ascii.eqb c' LF) eqn:Ec'.
        -- rewrite (IH t' b); [reflexivity|simpl in Hlen; lia|exact Hb].
        -- rewrite app_comm_cons.
           rewrite (IH (c' :: t') b); [reflexivity|lia|exact Hb].
    + rewrite (IH t b); [reflexivity|lia|exact Hb].
Qed.

Lemma universal_newlines_app (a b : str) :
  hd "x"%char b <> LF ->
  universal_newlines (a ++ b) = universal_newlines a ++ universal_newlines b.
Proof. apply (universal_newlines_app_len (List.length a)). lia. Qed.

Lemma universal_newlines_ends_LF_len (n : nat) :
  forall a,
    (List.length a <= n)%nat ->
    exists x, universal_newlines (a ++ [LF]) = x ++ [LF].
Proof.
  induction n as [|n IH]; intros a Hlen.
  - destruct a; [now exists []|simpl in Hlen; lia].
  - destruct a as [|c t]; [now exists []|]. simpl in Hlen.
    cbn [app universal_newlines].
    destruct (Ascii.eqb c CR) eqn:Ec.
    + destruct t as [|c' t'].
      * now exists [].
      * cbn [app]. destruct (Ascii.eqb c' LF) eqn:Ec'.
        -- destruct (IH t') as [x Hx]; [simpl in Hlen; lia|].
           rewrite Hx. now exists (LF :: x).
        -- rewrite app_comm_cons.
           destruct (IH (c' :: t')) as [x Hx]; [lia|].
           rewrite Hx. now exists (LF :: x).
    + destruct (IH t) as [x Hx]; [lia|]. rewrite Hx. now exists (c :: x).
Qed.

Lemma universal_newlines_ends (content : str) :
  ends_with_line_end content = true ->
  content = [] \/ exists x, universal_newlines content = x ++ [LF].
Proof.
  unfold ends_with_line_end. destruct (rev content) as [|c r] eqn:Hrev.
  - intros _. left. apply (f_equal (@rev ascii)) in Hrev.
    now rewrite rev_involutive in Hrev.
  - intros H. right.
    assert (content = rev r ++ [c]) as ->.
    { apply (f_equal (@rev ascii)) in Hrev.
      now rewrite rev_involutive in Hrev. }
    apply orb_true_iff in H as [H|H]; apply Ascii.eqb_eq in H; subst c.
    + apply (universal_newlines_ends_LF_len (List.length (rev r))). lia.
    + rewrite universal_newlines_app by (cbv; discriminate).
      now exists (universal_newlines (rev r)).
Qed.

Lemma lines_from_app (x y : str) :
  forall current,
    lines_from current (x ++ [LF] ++ y) =
    lines_from current (x ++ [LF]) ++ lines_from [] y.
Proof.
  induction x as [|c x IH]; intros current; [reflexivity|].
  cbn [app lines_from]. destruct (Ascii.eqb c LF).
  - rewrite <- app_comm_cons. f_equal. apply IH.
  - apply IH.
Qed.

Lemma lines_from_single (body : str) :
  forall current,
    forallb within_line body = true ->
    lines_from current (body ++ [LF]) = [rev current ++ body ++ [LF]].
Proof.
  induction body as [|c body IH]; intros current H; [reflexivity|].
  simpl in H. apply andb_true_iff in H as [Hc Hbody].
  apply within_line_chars in Hc as [Hlf _]. apply Ascii.eqb_neq in Hlf.
  cbn [app lines_from]. rewrite Hlf. rewrite (IH _ Hbody).
  simpl. now rewrite <- app_assoc.
Qed.

(** A line appended to a store that is empty or ends with a line end is
    read back as the last line. *)
Lemma file_lines_append (content body : str) :
  ends_with_line_end content = true ->
  forallb within_line body = true ->
  body <> [] ->
  file_lines (content ++ body ++ [LF]) = file_lines content ++ [body ++ [LF]].
Proof.
  intros Hend Hplain Hne. unfold file_lines.
  assert (hd "x"%char (body ++ [LF]) <> LF) as Hhd.
  { destruct body as [|c t]; [contradiction|]. simpl in *.
    apply andb_true_iff in Hplain as [Hc _].
    now apply within_line_chars in Hc. }
  pose proof (universal_newlines_line _ Hplain) as Hun.
  rewrite (universal_newlines_app _ _ Hhd), Hun.
  apply universal_newlines_ends in Hend as [->|[x Hx]].
  - simpl. now rewrite (lines_from_single _ _ Hplain).
  - rewrite Hx, <- app_assoc, lines_from_app.
    now rewrite (lines_from_single _ _ Hplain).
Qed.

(** ** A line of the user store read back *)

Lemma split_app_sep (sep : ascii) (a rest : str) :
  existsb (Ascii.eqb sep) a = false ->
  split sep (a ++ sep :: rest) = a :: split sep rest.
Proof.
  induction a as [|c a IH]; simpl.
  - intros _. now rewrite Ascii.eqb_refl.
  - rewrite (Ascii.eqb_sym sep c). intros H.
    apply orb_false_iff in H as [Hc Ha]. rewrite Hc, (IH Ha). reflexivity.
Qed.

Lemma plain_no_comma (s : str) :
  forallb plain s = true -> existsb (Ascii.eqb COMMA) s = false.
Proof.
  induction s as [|c t IH]; [reflexivity|]. cbn [forallb existsb]. intros H.
  apply andb_true_iff in H as [Hc Ht]. rewrite (IH Ht), orb_false_r.
  apply plain_chars in Hc as [Hc _]. apply Ascii.eqb_neq. congruence.
Qed.

Lemma last_app_nonempty (l1 l2 : str) (d : ascii) :
  l2 <> [] -> last (l1 ++ l2) d = last l2 d.
Proof.
  intros Hne. induction l1 as [|c l1 IH]; [reflexivity|].
  simpl. destruct (l1 ++ l2) eqn:E; [|exact IH].
  apply app_eq_nil in E as [_ E]. contradiction.
Qed.

Lemma field_text_parts (s : str) :
  field_text s = true -> stripped s = true /\ forallb plain s = true.
Proof. unfold field_text. intros H. now apply andb_true_iff in H. Qed.

Lemma stripped_fields (a b c : str) :
  stripped a = true -> stripped c = true ->
  stripped (a ++ [COMMA] ++ b ++ [COMMA] ++ c) = true.
Proof.
  unfold stripped. intros Ha Hc.
  apply andb_true_iff in Ha as [Ha _]. apply andb_true_iff in Hc as [_ Hc].
  apply andb_true_iff. split.
  - destruct a; [reflexivity|exact Ha].
  - rewrite app_assoc, app_assoc, app_assoc.
    destruct c as [|x c].
    + rewrite app_nil_r. now rewrite last_last.
    + rewrite last_app_nonempty by discriminate. exact Hc.
Qed.

Lemma user_line_effect_store_line (a b c : str) (d : city_directory) :
  field_text a = true -> field_text b = true -> field_text c = true ->
  user_line_effect (a ++ "," ++ b ++ "," ++ c ++ [LF]) d =
  Some (dict_set d (lower a) (b, PStr c)).
Proof.
  intros Ha Hb Hc.
  apply field_text_parts in Ha as [Sa Pa].
  apply field_text_parts in Hb as [Sb Pb].
  apply field_text_parts in Hc as [Sc Pc].
  change (list_ascii_of_string ",") with [COMMA].
  set (body := a ++ [COMMA] ++ b ++ [COMMA] ++ c).
  assert (a ++ [COMMA] ++ b ++ [COMMA] ++ c ++ [LF] = body ++ [LF]) as ->.
  { unfold body. now rewrite <- !app_assoc. }
  assert (body <> []) as Hne.
  { unfold body. destruct a; discriminate. }
  unfold user_line_effect.
  rewrite (strip_line body LF (stripped_fields a b c Sa Sc) Hne eq_refl).
  assert (split COMMA body = [a; b; c]) as Hsplit.
  { unfold body. simpl app.
    rewrite (split_app_sep _ _ _ (plain_no_comma _ Pa)).
    rewrite (split_app_sep _ _ _ (plain_no_comma _ Pb)).
    now rewrite (split_no_sep _ _ (plain_no_comma _ Pc)). }
  rewrite Hsplit. destruct body as [|x body']; [contradiction|].
  now rewrite (strip_stripped _ Sa), (strip_stripped _ Sb), (strip_stripped _ Sc).
Qed.

(** ** Texts that are fields *)

Lemma forallb_last (P : ascii -> bool) (s : str) (d : ascii) :
  forallb P s = true -> P d = true -> P (last s d) = true.
Proof.
  intros Hs Hd. induction s as [|c [|c' t] IH]; simpl in *; auto.
  - now apply andb_true_iff in Hs as [Hc _].
  - apply IH. now apply andb_true_iff in Hs as [_ Ht].
Qed.

Lemma solid_field_text (s : str) :
  forallb solid s = true -> field_text s = true.
Proof.
  intros H. unfold field_text, stripped.
  assert (forallb (fun c => negb (is_space c)) s = true) as Hspace.
  { rewrite forallb_forall in *. intros c Hc.
    specialize (H c Hc). unfold solid in H.
    now apply andb_true_iff in H as [H _]. }
  assert (forallb plain s = true) as Hplain.
  { rewrite forallb_forall in *. intros c Hc.
    specialize (H c Hc). unfold solid in H.
    now apply andb_true_iff in H as [_ H]. }
  rewrite Hplain, andb_true_r. apply andb_true_iff. split.
  - destruct s as [|c t]; [reflexivity|]. simpl in *.
    now apply andb_true_iff in Hspace as [Hc _].
  - now apply (forallb_last (fun c => negb (is_space c))).
Qed.

Lemma string_of_uint_solid (d : Decimal.uint) :
  forallb solid (list_ascii_of_string (NilEmpty.string_of_uint d)) = true.
Proof.
  induction d; simpl; try reflexivity; exact IHd.
Qed.

Lemma str_of_int_field_text (n : Z) : field_text (str_of_int n) = true.
Proof.
  apply solid_field_text. unfold str_of_int, NilZero.string_of_int.
  assert (forall d, forallb solid
                      (list_ascii_of_string (NilZero.string_of_uint d)) = true)
    as Huint.
  { intros d. unfold NilZero.string_of_uint.
    destruct d; try apply string_of_uint_solid. reflexivity. }
  destruct (Z.to_int n) as [d|d]; [apply Huint|].
  cbn [list_ascii_of_string forallb]. now rewrite Huint.
Qed.

Lemma prefix_ok_field_text (p : prefix) :
  prefix_ok p = true -> field_text (format_prefix p) = true.
Proof.
  destruct p as [n|s]; simpl; [intros _; apply str_of_int_field_text|auto].
Qed.

Lemma alpha_plain (c : ascii) : is_alpha c = true -> plain c = true.
Proof. all_chars c; simpl; intros H; try reflexivity; discriminate H. Qed.

Lemma lower_char_plain (c : ascii) : plain (lower_char c) = plain c.
Proof. all_chars c; reflexivity. Qed.

Lemma validate_name_plain (name : str) (w : World) :
  fst (validate_name name w) = Ret true -> forallb plain name = true.
Proof.
  rewrite validate_name_run. destruct name as [|c0 t]; [discriminate|].
  destruct (isalpha (replace_with_empty SPACE (c0 :: t))) eqn:E;
    [intros _|discriminate].
  apply forallb_forall. intros c Hc.
  destruct (Ascii.eqb c SPACE) eqn:Hsp.
  - apply Ascii.eqb_eq in Hsp. now subst c.
  - apply alpha_plain. unfold isalpha in E.
    destruct (replace_with_empty SPACE (c0 :: t)) as [|x l] eqn:Hr;
      [discriminate|].
    rewrite forallb_forall in E. apply E. rewrite <- Hr.
    apply In_replace_with_empty. split; [exact Hc|].
    now apply Ascii.eqb_neq.
Qed.

Lemma lower_plain (s : str) : forallb plain (lower s) = forallb plain s.
Proof.
  unfold lower. induction s as [|c t IH]; [reflexivity|].
  cbn [map forallb]. now rewrite lower_char_plain, IH.
Qed.

(** ** Loading both sources *)

Lemma load_initial_rows_frame reader :
  forall acc w1 w2,
    load_initial_rows reader acc w1 =
    (fst (load_initial_rows reader acc w2), w1).
Proof.
  induction reader as [|row reader IH]; intros acc w1 w2; [reflexivity|].
  destruct (row_entry row) as [[city record]|] eqn:Hentry.
  - rewrite !(load_initial_rows_entry _ _ _ _ _ _ Hentry). apply IH.
  - destruct (load_initial_rows_bad _ reader acc Hentry) as [e He].
    now rewrite !He.
Qed.

Lemma load_initial_cities_frame csv_file w1 w2 :
  csv_files w1 = csv_files w2 ->
  load_initial_cities csv_file w1 =
  (fst (load_initial_cities csv_file w2), w1).
Proof.
  intros Hcsv. unfold load_initial_cities, bind, open_csv_reader.
  rewrite Hcsv. destruct (dict_get (csv_files w2) csv_file); [|reflexivity].
  apply load_initial_rows_frame.
Qed.

Lemma load_data_run (w : World) :
  load_data w =
  match fst (load_initial_cities CSV_FILE w) with
  | Ret loaded => load_user_cities CITY_FILE (set_cities loaded w)
  | Raise e => (Raise e, w)
  | OutOfFuel => (OutOfFuel, w)
  end.
Proof.
  unfold load_data. unfold bind at 1.
  rewrite (load_initial_cities_frame CSV_FILE w w eq_refl).
  now destruct (fst (load_initial_cities CSV_FILE w)).
Qed.

Lemma load_user_cities_run file_path content w :
  dict_get (text_files w) file_path = Some content ->
  load_user_cities file_path w = load_user_lines (file_lines content) w.
Proof.
  intros H. unfold load_user_cities, bind, open_read_lines. now rewrite H.
Qed.

(** What the success of [load_data] says of the two files. *)
Lemma load_data_success (w : World) :
  fst (load_data w) = Ret tt ->
  exists loaded content,
    fst (load_initial_cities CSV_FILE w) = Ret loaded /\
    dict_get (text_files w) CITY_FILE = Some content /\
    fst (load_user_lines (file_lines content) (set_cities loaded w)) = Ret tt.
Proof.
  rewrite load_data_run.
  destruct (fst (load_initial_cities CSV_FILE w)) as [loaded| |];
    try discriminate.
  intros H. exists loaded.
  destruct (dict_get (text_files w) CITY_FILE) as [content|] eqn:Hfile.
  - exists content. repeat split.
    now rewrite (load_user_cities_run _ _ (set_cities loaded w) Hfile) in H.
  - unfold load_user_cities, bind, open_read_lines in H.
    cbn [text_files set_cities] in H. rewrite Hfile in H. discriminate.
Qed.

(** ** The user store when its file is absent *)

(** C4 (as amended): with a path to a file that is absent, [load_user_cities]
    raises [FileNotFoundError] and the directory is as it was; when the
    absent file is the user store of [main] and the reference file loads,
    [main] ends with that error. *)
Theorem load_user_cities_missing_file (file_path : str) (w : World) :
  dict_get (text_files w) file_path = None ->
  load_user_cities file_path w = (Raise FileNotFoundError, w) /\
  (file_path = CITY_FILE ->
   forall fuel loaded,
     fst (load_initial_cities CSV_FILE w) = Ret loaded ->
     main fuel w = (Raise FileNotFoundError, set_cities loaded w)).
Proof.
  intros H.
  assert (forall w0, dict_get (text_files w0) file_path = None ->
                     load_user_cities file_path w0
                     = (Raise FileNotFoundError, w0)) as Hraise.
  { intros w0 H0. unfold load_user_cities, bind, open_read_lines.
    now rewrite H0. }
  split; [now apply Hraise|].
  intros -> fuel loaded Hinitial. unfold main. unfold bind at 1.
  rewrite load_data_run, Hinitial.
  now rewrite (Hraise (set_cities loaded w) H).
Qed.

Lemma load_user_cities_missing_file_witness :
  let header := [("city" : str); ("county" : str); ("prefix" : str)] in
  let w := mkWorld [(CSV_FILE, [header])] [] [("y" : str); ("x" : str)] [] [] in
  load_user_cities CITY_FILE w = (Raise FileNotFoundError, w) /\
  main 3 w = (Raise FileNotFoundError, w).
Proof.
  intros header w.
  destruct (load_user_cities_missing_file CITY_FILE w eq_refl) as [Hloader Hmain].
  split; [exact Hloader|].
  exact (Hmain eq_refl 3 [] eq_refl).
Defined.

(** C4 (as stated) fails: with the reference file in place and no user store,
    the loader does not return, and the session ends at startup. *)
Lemma missing_user_store_is_fatal :
  let header := [("city" : str); ("county" : str); ("prefix" : str)] in
  let w := mkWorld [(CSV_FILE, [header])] [] [("y" : str); ("x" : str)] [] [] in
  dict_get (text_files w) CITY_FILE = None /\
  fst (load_user_cities CITY_FILE w) = Raise FileNotFoundError /\
  fst (main 3 w) = Raise FileNotFoundError.
Proof. repeat split. Qed.

(** ** The appended line *)

Lemma store_line_body (a b c : str) :
  a ++ "," ++ b ++ "," ++ c ++ [LF] = (a ++ "," ++ b ++ "," ++ c) ++ [LF].
Proof. now rewrite <- !app_assoc. Qed.

Lemma store_line_within_line (a b c : str) :
  forallb plain a = true -> forallb plain b = true -> forallb plain c = true ->
  forallb within_line (a ++ "," ++ b ++ "," ++ c) = true.
Proof.
  intros Ha Hb Hc. rewrite !forallb_app.
  rewrite (plain_within_line _ Ha), (plain_within_line _ Hb),
    (plain_within_line _ Hc).
  reflexivity.
Qed.

(** ** The prefixes of a directory built by the program

    The loaders and the entry flow only ever store numbers and texts that
    are fields, so the condition of the round trip on the prefix holds in
    every session. *)

Lemma dict_values_set {V : Type} (d : dict V) k v x :
  In x (dict_values (dict_set d k v)) -> x = v \/ In x (dict_values d).
Proof.
  induction d as [|[k0 v0] d IH]; simpl.
  - intros [<-|[]]. now left.
  - destruct (str_eqb k0 k); simpl.
    + intros [<-|H]; auto.
    + intros [<-|H]; auto. destruct (IH H); auto.
Qed.

Lemma prefixes_ok_set (d : city_directory) k county p :
  prefixes_ok d = true -> prefix_ok p = true ->
  prefixes_ok (dict_set d k (county, p)) = true.
Proof.
  unfold prefixes_ok. rewrite !forallb_forall. intros Hd Hp record Hin.
  apply dict_values_set in Hin as [->|Hin]; [exact Hp|now apply Hd].
Qed.

Lemma scan_existing_prefix_in values county_name p :
  scan_existing_prefix values county_name = Some p ->
  exists county, In (county, p) values.
Proof.
  induction values as [|[county q] values IH]; simpl; [discriminate|].
  destruct (str_eqb (lower county) (lower county_name)).
  - intros [= ->]. eauto.
  - intros H. destruct (IH H) as [c Hc]. eauto.
Qed.

Lemma prefix_to_use_ok (d : city_directory) county_name :
  prefixes_ok d = true -> prefix_ok (prefix_to_use d county_name) = true.
Proof.
  intros Hd. unfold prefix_to_use.
  destruct (scan_existing_prefix (dict_values d) county_name) as [p|] eqn:E;
    [|reflexivity].
  apply scan_existing_prefix_in in E as [county Hin].
  unfold prefixes_ok in Hd. rewrite forallb_forall in Hd.
  exact (Hd _ Hin).
Qed.

Lemma unknown_city_prefixes_ok fuel city_name w :
  prefixes_ok (cities w) = true ->
  prefixes_ok (cities (snd (unknown_city fuel city_name w))) = true.
Proof.
  intros Hw. destruct (unknown_city fuel city_name w) as [r w'] eqn:Hrun.
  apply unknown_city_outcome in Hrun as [[Hc _]|[_ [ca [_ [Hc _]]]]];
    simpl; rewrite Hc; [exact Hw|].
  apply prefixes_ok_set; [exact Hw|]. now apply prefix_to_use_ok.
Qed.

Lemma load_initial_rows_prefixes_ok reader :
  forall acc w d w',
    prefixes_ok acc = true ->
    load_initial_rows reader acc w = (Ret d, w') ->
    prefixes_ok d = true.
Proof.
  induction reader as [|row reader IH]; intros acc w d w' Hacc Hrun.
  - inversion Hrun; subst. exact Hacc.
  - destruct (row_entry row) as [[city [county p]]|] eqn:Hentry.
    + rewrite (load_initial_rows_entry _ _ _ _ _ _ Hentry) in Hrun.
      eapply IH; [|exact Hrun]. apply prefixes_ok_set; [exact Hacc|].
      unfold row_entry in Hentry.
      destruct (dict_get row "city") as [[?|]|]; try discriminate.
      destruct (dict_get row "county") as [[?|]|]; try discriminate.
      destruct (dict_get row "prefix") as [[q|]|]; try discriminate.
      destruct (int_of_str q); [|discriminate].
      now injection Hentry as _ _ <-.
    + destruct (load_initial_rows_bad _ reader acc Hentry) as [e He].
      rewrite He in Hrun. discriminate.
Qed.

Lemma lstrip_incl (s : str) (x : ascii) : In x (lstrip s) -> In x s.
Proof.
  induction s as [|c t IH]; simpl; [auto|].
  destruct (is_space c); [intros H; right; auto|auto].
Qed.

Lemma strip_incl (s : str) (x : ascii) : In x (strip s) -> In x s.
Proof.
  unfold strip, rstrip. intros H. apply in_rev in H.
  apply lstrip_incl in H. apply in_rev in H. now apply lstrip_incl in H.
Qed.

Lemma lstrip_app_space (s : str) (c : ascii) :
  is_space c = true ->
  (lstrip (s ++ [c]) = [] /\ lstrip s = []) \/
  lstrip (s ++ [c]) = lstrip s ++ [c].
Proof.
  intros Hc. induction s as [|a s IH]; simpl.
  - rewrite Hc. now left.
  - destruct (is_space a); [exact IH|now right].
Qed.

Lemma strip_app_space (s : str) (c : ascii) :
  is_space c = true -> strip (s ++ [c]) = strip s.
Proof.
  intros Hc. unfold strip.
  destruct (lstrip_app_space s c Hc) as [[H1 H2]|H].
  - now rewrite H1, H2.
  - rewrite H. now apply rstrip_app_space.
Qed.

Lemma split_parts (sep : ascii) (s : str) :
  forall part x,
    In part (split sep s) -> In x part -> x <> sep /\ In x s.
Proof.
  induction s as [|c t IH]; intros part x Hpart Hx; simpl in Hpart.
  - destruct Hpart as [<-|[]]. destruct Hx.
  - destruct (Ascii.eqb c sep) eqn:Ec.
    + destruct Hpart as [<-|Hpart]; [destruct Hx|].
      destruct (IH _ _ Hpart Hx) as [Hne Hin]. split; [exact Hne|now right].
    + destruct (split_cons sep t) as [p [ps Hs]]. rewrite Hs in *.
      destruct Hpart as [<-|Hpart].
      * destruct Hx as [<-|Hx].
        -- split; [now apply Ascii.eqb_neq|now left].
        -- destruct (IH p x (or_introl eq_refl) Hx) as [Hne Hin].
           split; [exact Hne|now right].
      * destruct (IH part x (or_intror Hpart) Hx) as [Hne Hin].
        split; [exact Hne|now right].
Qed.

Lemma universal_newlines_no_CR_len (n : nat) :
  forall s x,
    (List.length s <= n)%nat -> In x (universal_newlines s) -> x <> CR.
Proof.
  induction n as [|n IH]; intros s x Hlen Hx.
  - destruct s; [destruct Hx|simpl in Hlen; lia].
  - destruct s as [|c t]; [destruct Hx|]. simpl in Hlen.
    cbn [universal_newlines] in Hx.
    destruct (Ascii.eqb c CR) eqn:Ec.
    + destruct t as [|c' t'].
      * destruct Hx as [<-|[]]. discriminate.
      * destruct (Ascii.eqb c' LF).
        -- destruct Hx as [<-|Hx]; [discriminate|].
           apply (IH t'); [simpl in Hlen; lia|exact Hx].
        -- destruct Hx as [<-|Hx]; [discriminate|].
           apply (IH (c' :: t')); [lia|exact Hx].
    + destruct Hx as [<-|Hx]; [now apply Ascii.eqb_neq|].
      apply (IH t); [lia|exact Hx].
Qed.

Lemma lines_from_shape (s : str) :
  forall current line,
    (forall x, In x s -> x <> CR) ->
    (forall x, In x current -> within_line x = true) ->
    In line (lines_from current s) ->
    exists body,
      (forall x, In x body -> within_line x = true) /\
      (line = body ++ [LF] \/ line = body).
Proof.
  induction s as [|c t IH]; intros current line Hs Hcur Hline;
    cbn [lines_from] in Hline.
  - destruct current as [|a current]; [destruct Hline|].
    destruct Hline as [<-|[]]. exists (rev (a :: current)). split; [|now right].
    intros x Hx. apply Hcur. now apply in_rev.
  - destruct (Ascii.eqb c LF) eqn:Ec.
    + destruct Hline as [<-|Hline].
      * apply Ascii.eqb_eq in Ec. subst c. exists (rev current).
        split; [|now left]. intros x Hx. apply Hcur. now apply in_rev.
      * apply (IH [] line); [intros x Hx; apply Hs; now right| |exact Hline].
        intros x [].
    + apply (IH (c :: current) line);
        [intros x Hx; apply Hs; now right| |exact Hline].
      intros x [<-|Hx]; [|now apply Hcur].
      unfold within_line. rewrite Ec. simpl. apply negb_true_iff.
      apply Ascii.eqb_neq. apply Hs. now left.
Qed.

(** White space apart, a line of a text file holds no line end. *)
Lemma file_line_within_line (content line : str) :
  In line (file_lines content) ->
  forall x, In x (strip line) -> within_line x = true.
Proof.
  intros Hline. unfold file_lines in Hline.
  apply lines_from_shape in Hline as [body [Hbody Hshape]].
  - intros x Hx. apply Hbody. destruct Hshape as [-> | ->].
    + rewrite strip_app_space in Hx by reflexivity. now apply strip_incl.
    + now apply strip_incl.
  - intros x Hx.
    apply (universal_newlines_no_CR_len (List.length content) content);
      [lia|exact Hx].
  - intros x [].
Qed.

Lemma field_text_strip_part (line part : str) :
  (forall x, In x line -> within_line x = true) ->
  In part (split COMMA line) ->
  field_text (strip part) = true.
Proof.
  intros Hline Hpart. unfold field_text. rewrite stripped_strip.
  apply forallb_forall. intros x Hx. apply strip_incl in Hx.
  destruct (split_parts _ _ _ _ Hpart Hx) as [Hne Hin].
  specialize (Hline x Hin). unfold within_line in Hline. unfold plain.
  apply Ascii.eqb_neq in Hne. rewrite Hne. exact Hline.
Qed.

Lemma user_line_effect_prefixes_ok (line : str) (d d' : city_directory) :
  (forall x, In x (strip line) -> within_line x = true) ->
  prefixes_ok d = true ->
  user_line_effect line d = Some d' ->
  prefixes_ok d' = true.
Proof.
  intros Hline Hd. unfold user_line_effect.
  destruct (strip line) as [|c t] eqn:Hs; [now intros [= <-]|].
  destruct (split COMMA (c :: t)) as [|part0 [|part1 rest]] eqn:Hsplit;
    try discriminate.
  intros [= <-]. apply prefixes_ok_set; [exact Hd|].
  destruct rest as [|part2 rest]; [reflexivity|].
  cbn [prefix_ok]. apply (field_text_strip_part (c :: t)); [exact Hline|].
  rewrite Hsplit. right. right. now left.
Qed.

Lemma load_user_lines_prefixes_ok (lines : list str) :
  forall w,
    (forall line, In line lines ->
                  forall x, In x (strip line) -> within_line x = true) ->
    prefixes_ok (cities w) = true ->
    prefixes_ok (cities (snd (load_user_lines lines w))) = true.
Proof.
  induction lines as [|line lines IH]; intros w Hlines Hw; [exact Hw|].
  rewrite load_user_lines_cons.
  destruct (user_line_effect line (cities w)) as [d|] eqn:Hline; [|exact Hw].
  apply IH; [intros l Hl; apply Hlines; now right|].
  cbn [cities set_cities].
  eapply user_line_effect_prefixes_ok; [|exact Hw|exact Hline].
  apply Hlines. now left.
Qed.

(** After the two sources are loaded, every prefix of the directory is a
    number or a text that is a field. *)
Lemma load_data_prefixes_ok (w : World) :
  fst (load_data w) = Ret tt ->
  prefixes_ok (cities (snd (load_data w))) = true.
Proof.
  intros Hload.
  destruct (load_data_success _ Hload)
    as [loaded [content [Hinitial [Hfile _]]]].
  rewrite load_data_run, Hinitial.
  rewrite (load_user_cities_run _ _ (set_cities loaded w) Hfile).
  apply load_user_lines_prefixes_ok.
  - intros line Hline. now apply (file_line_within_line content).
  - cbn [cities set_cities].
    destruct (load_initial_cities CSV_FILE w) as [r w1] eqn:Hrun.
    cbn [fst] in Hinitial. subst r.
    unfold load_initial_cities, bind, open_csv_reader in Hrun.
    destruct (dict_get (csv_files w) CSV_FILE); [|discriminate].
    eapply load_initial_rows_prefixes_ok; [|exact Hrun]. reflexivity.
Qed.

(** ** The round trip *)

(** C1 (as amended): a city name that [main] has stripped and validated and
    that is not in the directory is given to the entry flow; the user store
    is empty or ends with a line end, both sources load, and the prefixes of
    the directory are numbers or texts that are fields, as they are in every
    directory the program builds ([load_data_prefixes_ok],
    [unknown_city_prefixes_ok]).  When the flow has added the city with a
    county and a prefix, loading both sources again returns, and gives for
    the lowered city the same county with the text of the prefix: the same
    pair when the prefix is a text ("unknown" or a prefix read from the user
    store), and the text of the number, not the number, when the prefix was
    inherited from the reference file. *)
Theorem round_trip_persistence (fuel : nat) (answer : str) (w w' : World)
        (r : outcome unit) (county : str) (p : prefix) :
  let city_name := strip answer in
  fst (validate_name city_name w) = Ret true ->
  dict_get (cities w) (lower city_name) = None ->
  ends_with_line_end (file_content w CITY_FILE) = true ->
  fst (load_data w) = Ret tt ->
  unknown_city fuel city_name w = (r, w') ->
  dict_get (cities w') (lower city_name) = Some (county, p) ->
  prefixes_ok (cities w) = true ->
  exists w'',
    load_data w' = (Ret tt, w'') /\
    dict_get (cities w'') (lower city_name)
    = Some (county, PStr (format_prefix p)) /\
    (forall s, p = PStr s ->
               dict_get (cities w'') (lower city_name) = Some (county, p)).
Proof.
  intros city_name Hvalid Hmiss Hend Hload Hrun Hhit Hp.
  apply unknown_city_outcome in Hrun
    as [[Hc _]|[_ [ca [Hv [Hcities [Hfiles Hcsv]]]]]].
  { rewrite Hc in Hhit. congruence. }
  rewrite Hcities, dict_get_set_same in Hhit.
  injection Hhit as Hcounty Hprefix. subst county p. clear Hcities.
  set (county := title (strip ca)) in *.
  set (p := prefix_to_use (cities w) county) in *.
  assert (prefix_ok p = true) as Hprefix by now apply prefix_to_use_ok.
  (* the three fields of the appended line *)
  assert (field_text (lower city_name) = true) as Fcity.
  { unfold field_text. rewrite stripped_lower. unfold city_name at 1.
    rewrite stripped_strip, lower_plain.
    now rewrite (validate_name_plain _ _ Hvalid). }
  assert (field_text county = true) as Fcounty.
  { unfold field_text, county. rewrite stripped_title, stripped_strip.
    exact (validate_name_plain _ _ Hv). }
  pose proof (prefix_ok_field_text _ Hprefix) as Fprefix.
  (* the sources before the commit *)
  destruct (load_data_success _ Hload)
    as [loaded [content [Hinitial [Hfile Hlines]]]].
  assert (file_content w CITY_FILE = content) as Hcontent
      by (unfold file_content; now rewrite Hfile).
  rewrite Hcontent in Hend, Hfiles.
  (* the sources after it *)
  rewrite load_data_run.
  rewrite (load_initial_cities_frame CSV_FILE w' w Hcsv). cbn [fst].
  rewrite Hinitial.
  assert (dict_get (text_files (set_cities loaded w')) CITY_FILE
          = Some (content ++ store_line (lower city_name) county p)) as Hfile'.
  { cbn [text_files set_cities]. rewrite Hfiles. apply dict_get_set_same. }
  rewrite (load_user_cities_run _ _ _ Hfile').
  unfold store_line. rewrite store_line_body.
  rewrite file_lines_append; [|exact Hend| |].
  2:{ apply field_text_parts in Fcity as [_ Pcity].
      apply field_text_parts in Fcounty as [_ Pcounty].
      apply field_text_parts in Fprefix as [_ Pprefix].
      now apply store_line_within_line. }
  2:{ destruct (lower city_name); discriminate. }
  rewrite load_user_lines_app.
  destruct (load_user_lines_frame (file_lines content)
              (set_cities loaded w') (set_cities loaded w) eq_refl)
    as [Hfst _].
  rewrite Hlines in Hfst.
  destruct (load_user_lines (file_lines content) (set_cities loaded w'))
    as [r1 w1]. cbn [fst] in Hfst. subst r1.
  rewrite load_user_lines_cons, <- store_line_body.
  rewrite (user_line_effect_store_line _ _ _ _ Fcity Fcounty Fprefix).
  cbn [load_user_lines]. unfold ret. eexists. split; [reflexivity|].
  cbn [cities set_cities]. rewrite lower_idem, dict_get_set_same.
  split; [reflexivity|]. now intros s ->.
Qed.

Lemma round_trip_persistence_witness :
  let header := [("city" : str); ("county" : str); ("prefix" : str)] in
  let disk := mkWorld
                [(CSV_FILE, [header; [("Missoula" : str); ("Missoula" : str); ("4" : str)]])]
                [(CITY_FILE, ("butte,Silver Bow" : str) ++ [LF])]
                [("y" : str); (" teton" : str); ("n" : str);
                 ("y" : str); ("missoula " : str); ("y" : str)] [] [] in
  let w := snd (load_data disk) in
  let w' := snd (unknown_city 3 (strip " Lolo ") w) in
  exists w'',
    load_data w' = (Ret tt, w'') /\
    dict_get (cities w'') "lolo" = Some ("Missoula" : str, PStr "4").
Proof.
  intros header disk w w'.
  destruct (round_trip_persistence 3 " Lolo " w w' (Ret tt) "Missoula" (PInt 4))
    as [w'' [Hload [Hget _]]]; try (vm_compute; reflexivity).
  exists w''. split; [exact Hload|exact Hget].
Defined.

(** C1 (as stated) fails.  With Missoula in the reference file, Lolo is added
    for the county Missoula and inherits the number 4; after a reload the
    prefix of Lolo is the text "4", which is not the pair that was in the
    directory.  And when the user store does not end with a line end, the
    appended line runs into the last one and Lolo is not found after the
    reload. *)
Lemma reloaded_pair_differs :
  let header := [("city" : str); ("county" : str); ("prefix" : str)] in
  let csv := [(CSV_FILE, [header; [("Missoula" : str); ("Missoula" : str); ("4" : str)]])] in
  let answers := [("y" : str); ("missoula" : str); ("y" : str)] in
  let w1 := snd (load_data (mkWorld csv [(CITY_FILE, [])] answers [] [])) in
  let w1' := snd (unknown_city 2 "Lolo" w1) in
  let w2 := snd (load_data
                   (mkWorld csv [(CITY_FILE, "butte,Silver Bow,1" : str)]
                      [("y" : str); ("teton" : str); ("y" : str)] [] [])) in
  let w2' := snd (unknown_city 2 "Lolo" w2) in
  (fst (unknown_city 2 "Lolo" w1) = Ret tt /\
   dict_get (cities w1') "lolo" = Some ("Missoula" : str, PInt 4) /\
   fst (load_data w1') = Ret tt /\
   dict_get (cities (snd (load_data w1'))) "lolo"
   = Some ("Missoula" : str, PStr "4") /\
   dict_get (cities (snd (load_data w1'))) "lolo"
   <> dict_get (cities w1') "lolo") /\
  (fst (unknown_city 2 "Lolo" w2) = Ret tt /\
   dict_get (cities w2') "lolo" = Some ("Teton" : str, PStr "unknown") /\
   fst (load_data w2') = Ret tt /\
   dict_get (cities (snd (load_data w2'))) "lolo" = None).
Proof.
  vm_compute. repeat split. discriminate.
Qed.

(** * Further properties of the program *)

(** ** The loops end on a finite input *)



(** ** A turn of the main loop *)

Lemma lookup_city_run (city_name : str) (w : World) :
  lookup_city city_name w =
  match dict_get (cities w) (lower city_name) with
  | Some (county, p) => (Ret true, shows (found_line city_name county p) w)
  | None => (Ret false, w)
  end.
Proof.
  unfold lookup_city. rewrite run_get_cities.
  destruct (dict_get (cities w) (lower city_name)) as [[county p]|];
    reflexivity.
Qed.

Lemma main_loop_eof fuel w :
  stdin w = [] ->
  main_loop (S fuel) w = (Raise EOFError, shows ask_city w).
Proof.
  intros Hin. cbn [main_loop]. now rewrite run_input_eof by exact Hin.
Qed.

Lemma main_loop_read fuel w answer rest :
  stdin w = answer :: rest ->
  main_loop (S fuel) w =
  (if str_eqb (lower (strip answer)) "x" then ret tt
   else
     valid <- validate_name (strip answer) ;;
     if negb valid then main_loop fuel
     else
       found <- lookup_city (strip answer) ;;
       if negb found
       then unknown_city fuel (strip answer) ;; main_loop fuel
       else main_loop fuel) (city_asked rest w).
Proof.
  intros Hin. cbn [main_loop]. now rewrite (run_input _ _ _ _ _ Hin).
Qed.

Lemma main_loop_exit fuel w answer rest :
  stdin w = answer :: rest ->
  lower (strip answer) = ("x" : str) ->
  main_loop (S fuel) w = (Ret tt, city_asked rest w).
Proof.
  intros Hin Hx. rewrite (main_loop_read _ _ _ _ Hin).
  rewrite Hx. reflexivity.
Qed.

Lemma main_loop_invalid fuel w answer rest :
  stdin w = answer :: rest ->
  lower (strip answer) <> ("x" : str) ->
  fst (validate_name (strip answer) w) = Ret false ->
  main_loop (S fuel) w =
  main_loop fuel (snd (validate_name (strip answer) (city_asked rest w))).
Proof.
  intros Hin Hx Hv. rewrite (main_loop_read _ _ _ _ Hin).
  apply str_eqb_neq in Hx. rewrite Hx. unfold bind at 1.
  rewrite (validate_name_fst _ _ (city_asked rest w)) in Hv.
  rewrite (validate_name_false _ _ Hv).
  reflexivity.
Qed.

Lemma main_loop_hit fuel w answer rest county p :
  stdin w = answer :: rest ->
  lower (strip answer) <> ("x" : str) ->
  fst (validate_name (strip answer) w) = Ret true ->
  dict_get (cities w) (lower (strip answer)) = Some (county, p) ->
  main_loop (S fuel) w =
  main_loop fuel (shows (found_line (strip answer) county p) (city_asked rest w)).
Proof.
  intros Hin Hx Hv Hget. rewrite (main_loop_read _ _ _ _ Hin).
  apply str_eqb_neq in Hx. rewrite Hx. unfold bind at 1.
  rewrite (validate_name_fst _ _ (city_asked rest w)) in Hv.
  rewrite (validate_name_true _ _ Hv).
  cbv iota beta. change (negb true) with false. cbv iota.
  unfold bind at 1. rewrite lookup_city_run.
  change (cities (city_asked rest w)) with (cities w). rewrite Hget.
  reflexivity.
Qed.

Lemma main_loop_miss fuel w answer rest :
  stdin w = answer :: rest ->
  lower (strip answer) <> ("x" : str) ->
  fst (validate_name (strip answer) w) = Ret true ->
  dict_get (cities w) (lower (strip answer)) = None ->
  main_loop (S fuel) w =
  (unknown_city fuel (strip answer) ;; main_loop fuel) (city_asked rest w).
Proof.
  intros Hin Hx Hv Hget. rewrite (main_loop_read _ _ _ _ Hin).
  apply str_eqb_neq in Hx. rewrite Hx. unfold bind at 1.
  rewrite (validate_name_fst _ _ (city_asked rest w)) in Hv.
  rewrite (validate_name_true _ _ Hv).
  cbv iota beta. change (negb true) with false. cbv iota.
  unfold bind at 1. rewrite lookup_city_run.
  change (cities (city_asked rest w)) with (cities w). rewrite Hget.
  reflexivity.
Qed.


(** The four cases of a turn: the answer is the exit word, an invalid name,
    a name of the directory, or a name that is not in it. *)
Lemma main_loop_cases w answer :
  lower (strip answer) = ("x" : str) \/
  (lower (strip answer) <> ("x" : str) /\
   (fst (validate_name (strip answer) w) = Ret false \/
    (fst (validate_name (strip answer) w) = Ret true /\
     ((exists county p,
          dict_get (cities w) (lower (strip answer)) = Some (county, p)) \/
      dict_get (cities w) (lower (strip answer)) = None)))).
Proof.
  destruct (str_eqb (lower (strip answer)) "x") eqn:Hx.
  - left. now apply str_eqb_eq.
  - right. split; [now apply str_eqb_neq|].
    destruct (validate_name_total (strip answer) w) as [Hv|Hv]; [right|now left].
    split; [exact Hv|].
    destruct (dict_get (cities w) (lower (strip answer))) as [[county p]|];
      [left; eauto|now right].
Qed.


(** ** Loading *)


Lemma load_data_others (w : World) :
  csv_files (snd (load_data w)) = csv_files w /\
  text_files (snd (load_data w)) = text_files w /\
  stdin (snd (load_data w)) = stdin w /\
  stdout (snd (load_data w)) = stdout w.
Proof.
  rewrite load_data_run.
  destruct (fst (load_initial_cities CSV_FILE w)) as [loaded| |];
    [|repeat split..].
  unfold load_user_cities, bind, open_read_lines.
  cbn [text_files set_cities].
  destruct (dict_get (text_files w) CITY_FILE) as [content|];
    [|repeat split].
  apply (load_user_lines_others (file_lines content) (set_cities loaded w)).
Qed.


Lemma main_after_load fuel w w0 :
  load_data w = (Ret tt, w0) ->
  (forall answer rest,
      stdin w0 = answer :: rest ->
      main fuel w =
      (if negb (str_eqb (lower answer) "y") then print "Okay, goodbye!"
       else main_loop fuel ;; print "Thanks! Have a good day.")
        (greeted rest w0)) /\
  (stdin w0 = [] -> fst (main fuel w) = Raise EOFError).
Proof.
  intros Hload. split.
  - intros answer rest Hin. unfold main. unfold bind at 1. rewrite Hload.
    rewrite !run_print.
    now rewrite (run_input _ _ (shows _ (shows _ w0)) answer rest Hin).
  - intros Hin. unfold main. unfold bind at 1. rewrite Hload.
    rewrite !run_print.
    now rewrite (run_input_eof _ _ (shows _ (shows _ w0)) Hin).
Qed.


(** ** What holds from the start of a session to its end

    A relation between worlds that the prompts, the reading of a line and a
    run of the entry flow on a city that is missing go along with, goes
    along with the main loop and with [main] after the loading. *)

Section SessionRelation.

Variable R : World -> World -> Prop.

Hypothesis R_refl : forall w, R w w.
Hypothesis R_trans : forall w1 w2 w3, R w1 w2 -> R w2 w3 -> R w1 w3.
Hypothesis R_shows : forall s w, R w (shows s w).
Hypothesis R_reads : forall l w, R w (reads l w).
Hypothesis R_unknown_city :
  forall fuel city_name w,
    stripped city_name = true ->
    fst (validate_name city_name w) = Ret true ->
    dict_get (cities w) (lower city_name) = None ->
    R w (snd (unknown_city fuel city_name w)).

Lemma R_validate_name name w : R w (snd (validate_name name w)).
Proof.
  rewrite validate_name_run. destruct name; [apply R_shows|].
  destruct (isalpha _); [apply R_refl|apply R_shows].
Qed.

Lemma R_city_asked rest w : R w (city_asked rest w).
Proof. eapply R_trans; [apply R_shows|apply R_reads]. Qed.

Lemma main_loop_relation fuel : forall w, R w (snd (main_loop fuel w)).
Proof.
  induction fuel as [|fuel IH]; intros w; [apply R_refl|].
  destruct (stdin w) as [|answer rest] eqn:Hin.
  { rewrite (main_loop_eof _ _ Hin). apply R_shows. }
  destruct (main_loop_cases w answer)
    as [Hx|[Hx [Hv|[Hv [[county [p Hget]]|Hget]]]]].
  - rewrite (main_loop_exit _ _ _ _ Hin Hx). apply R_city_asked.
  - rewrite (main_loop_invalid _ _ _ _ Hin Hx Hv).
    eapply R_trans; [apply (R_city_asked rest)|].
    eapply R_trans; [apply R_validate_name|apply IH].
  - rewrite (main_loop_hit _ _ _ _ _ _ Hin Hx Hv Hget).
    eapply R_trans; [apply (R_city_asked rest)|].
    eapply R_trans; [apply R_shows|apply IH].
  - rewrite (main_loop_miss _ _ _ _ Hin Hx Hv Hget).
    eapply R_trans; [apply (R_city_asked rest)|].
    rewrite (validate_name_fst _ _ (city_asked rest w)) in Hv.
    pose proof (R_unknown_city fuel (strip answer) (city_asked rest w)
                  (stripped_strip _) Hv Hget) as Hflow.
    unfold bind.
    destruct (unknown_city fuel (strip answer) (city_asked rest w))
      as [[[]| |] w1]; cbn [snd] in *; try exact Hflow.
    eapply R_trans; [exact Hflow|apply IH].
Qed.

Lemma R_shows3 a b c w : R w (shows c (shows b (shows a w))).
Proof.
  apply (R_trans _ (shows a w)); [apply R_shows|].
  apply (R_trans _ (shows b (shows a w))); apply R_shows.
Qed.

Lemma main_relation fuel w : R (snd (load_data w)) (snd (main fuel w)).
Proof.
  destruct (load_data w) as [r0 w0] eqn:Hload. cbn [snd].
  destruct r0 as [[]| |].
  2,3: unfold main; unfold bind at 1; rewrite Hload; apply R_refl.
  destruct (main_after_load fuel w w0 Hload) as [Hread Heof].
  destruct (stdin w0) as [|answer rest] eqn:Hin.
  - unfold main. unfold bind at 1. rewrite Hload. rewrite !run_print.
    rewrite (run_input_eof _ _ (shows _ (shows _ w0)) Hin).
    cbn [snd]. apply R_shows3.
  - rewrite (Hread answer rest eq_refl).
    assert (R w0 (greeted rest w0)) as Hgreeted.
    { unfold greeted. eapply R_trans; [apply R_shows3|apply R_reads]. }
    eapply R_trans; [exact Hgreeted|].
    destruct (negb (str_eqb (lower answer) "y")); [apply R_shows|].
    unfold bind.
    pose proof (main_loop_relation fuel (greeted rest w0)) as Hloop.
    destruct (main_loop fuel (greeted rest w0)) as [[[]| |] w1];
      cbn [snd] in *; try exact Hloop.
    eapply R_trans; [exact Hloop|apply R_shows].
Qed.

End SessionRelation.

(** ** The program ends *)





(** ** What a session keeps *)

Lemma entries_kept_refl w : entries_kept w w.
Proof. intros k record H. exact H. Qed.

Lemma entries_kept_trans w1 w2 w3 :
  entries_kept w1 w2 -> entries_kept w2 w3 -> entries_kept w1 w3.
Proof. intros H12 H23 k record H. apply H23, H12, H. Qed.

Lemma entries_kept_unknown_city fuel city_name w :
  dict_get (cities w) (lower city_name) = None ->
  entries_kept w (snd (unknown_city fuel city_name w)).
Proof.
  intros Hmiss k record Hget.
  destruct (unknown_city fuel city_name w) as [r w'] eqn:Hrun.
  apply unknown_city_outcome in Hrun as [[Hc _]|[_ [ca [_ [Hc _]]]]];
    cbn [snd]; rewrite Hc; [exact Hget|].
  rewrite dict_get_set_other; [exact Hget|].
  intros <-. congruence.
Qed.

(** X3: a session never removes an entry of the directory and never changes
    its record: from the start of the main loop to its end, and from the end
    of the loading to the end of [main], every key keeps its record.  The
    entry flow is only entered for a city that is missing. *)
Theorem session_keeps_entries (fuel : nat) (w : World) :
  entries_kept w (snd (main_loop fuel w)) /\
  entries_kept (snd (load_data w)) (snd (main fuel w)).
Proof.
  split.
  - apply (main_loop_relation entries_kept); auto using entries_kept_refl.
    + apply entries_kept_trans.
    + intros s w0 k record H. exact H.
    + intros l w0 k record H. exact H.
    + intros f c w0 _ _. apply entries_kept_unknown_city.
  - apply (main_relation entries_kept); auto using entries_kept_refl.
    + apply entries_kept_trans.
    + intros s w0 k record H. exact H.
    + intros l w0 k record H. exact H.
    + intros f c w0 _ _. apply entries_kept_unknown_city.
Qed.

Lemma store_grows_refl w : store_grows w w.
Proof.
  split; [|split; [auto|reflexivity]]. exists []. now rewrite app_nil_r.
Qed.

Lemma store_grows_same_store w w' : same_store w w' -> store_grows w w'.
Proof.
  intros [_ [Hfiles Hcsv]]. unfold store_grows, file_content.
  rewrite Hfiles. split; [|split; [auto|exact Hcsv]].
  exists []. now rewrite app_nil_r.
Qed.

Lemma store_grows_trans w1 w2 w3 :
  store_grows w1 w2 -> store_grows w2 w3 -> store_grows w1 w3.
Proof.
  intros [[a12 H12] [O12 C12]] [[a23 H23] [O23 C23]]. split; [|split].
  - exists (a12 ++ a23). now rewrite H23, H12, app_assoc.
  - intros path Hpath. now rewrite O23, O12.
  - now rewrite C23.
Qed.

Lemma store_grows_unknown_city fuel city_name w :
  store_grows w (snd (unknown_city fuel city_name w)).
Proof.
  destruct (unknown_city fuel city_name w) as [r w'] eqn:Hrun.
  apply unknown_city_outcome in Hrun as [Hs|[_ [ca [_ [_ [Hfiles Hcsv]]]]]];
    cbn [snd]; [now apply store_grows_same_store|].
  unfold store_grows, file_content. rewrite Hfiles.
  split; [|split; [|exact Hcsv]].
  - rewrite dict_get_set_same. eexists. reflexivity.
  - intros path Hpath. apply dict_get_set_other. congruence.
Qed.

(** X4: the user store is only ever appended to.  After a run of
    [unknown_city], and after a whole run of [main], however it ends, the
    content of the user store is the old content followed by what was added,
    every other text file is as it was, and so are the CSV files. *)
Theorem store_only_grows (fuel : nat) (w : World) :
  (forall city_name, store_grows w (snd (unknown_city fuel city_name w))) /\
  store_grows w (snd (main fuel w)).
Proof.
  split; [intros city_name; apply store_grows_unknown_city|].
  apply (store_grows_trans _ (snd (load_data w))).
  - destruct (load_data_others w) as [Hcsv [Hfiles _]].
    unfold store_grows, file_content. rewrite Hfiles.
    split; [|split; [auto|exact Hcsv]].
    exists []. now rewrite app_nil_r.
  - apply (main_relation store_grows).
    + apply store_grows_refl.
    + apply store_grows_trans.
    + intros s w0. apply store_grows_same_store. repeat split.
    + intros l w0. apply store_grows_same_store. repeat split.
    + intros f c w0 _ _ _. apply store_grows_unknown_city.
Qed.

Lemma unknown_city_keys_lower fuel city_name w :
  keys_lower (cities w) ->
  keys_lower (cities (snd (unknown_city fuel city_name w))).
Proof.
  intros Hw. destruct (unknown_city fuel city_name w) as [r w'] eqn:Hrun.
  apply unknown_city_outcome in Hrun as [[Hc _]|[_ [ca [_ [Hc _]]]]];
    cbn [snd]; rewrite Hc; [exact Hw|].
  apply keys_lower_set; [exact Hw|apply lower_idem].
Qed.

Lemma load_data_keys_lower (w : World) :
  fst (load_data w) = Ret tt -> keys_lower (cities (snd (load_data w))).
Proof.
  intros Hload.
  destruct (load_data_success _ Hload)
    as [loaded [content [Hinitial [Hfile _]]]].
  rewrite load_data_run, Hinitial.
  rewrite (load_user_cities_run _ _ (set_cities loaded w) Hfile).
  apply load_user_lines_keys_lower. cbn [cities set_cities].
  destruct (load_initial_cities CSV_FILE w) as [r w1] eqn:Hrun.
  cbn [fst] in Hinitial. subst r.
  unfold load_initial_cities, bind, open_csv_reader in Hrun.
  destruct (dict_get (csv_files w) CSV_FILE); [|discriminate].
  eapply load_initial_rows_keys_lower; [|exact Hrun]. constructor.
Qed.

(** X5: when the two files load, the directory at the end of [main], however
    [main] ends, has lower-case keys only, and every prefix in it is a
    number or a text without comma, line end or white space around it. *)
Theorem session_directory_invariants (fuel : nat) (w : World) :
  fst (load_data w) = Ret tt ->
  keys_lower (cities (snd (main fuel w))) /\
  prefixes_ok (cities (snd (main fuel w))) = true.
Proof.
  intros Hload.
  pose proof (load_data_keys_lower w Hload) as Hkeys.
  pose proof (load_data_prefixes_ok w Hload) as Hprefixes.
  assert ((keys_lower (cities (snd (load_data w))) ->
           keys_lower (cities (snd (main fuel w)))) /\
          (prefixes_ok (cities (snd (load_data w))) = true ->
           prefixes_ok (cities (snd (main fuel w))) = true)) as [Hk Hp].
  { apply (main_relation
             (fun w0 w1 =>
                (keys_lower (cities w0) -> keys_lower (cities w1)) /\
                (prefixes_ok (cities w0) = true ->
                 prefixes_ok (cities w1) = true))).
    - intros w0. split; auto.
    - intros w1 w2 w3 [K12 P12] [K23 P23]. split; auto.
    - intros s w0. split; auto.
    - intros l w0. split; auto.
    - intros f c w0 _ _ _. split.
      + apply unknown_city_keys_lower.
      + apply unknown_city_prefixes_ok. }
  split; auto.
Qed.

Lemma session_directory_invariants_witness :
  let header := [("city" : str); ("county" : str); ("prefix" : str)] in
  let w := mkWorld
             [(CSV_FILE, [header; [("Butte" : str); ("Silver Bow" : str); ("1" : str)]])]
             [(CITY_FILE, ("Lolo, Missoula , 4 " : str) ++ [LF])]
             [("y" : str); ("Walkerville" : str); ("y" : str);
              ("silver bow" : str); ("y" : str); ("x" : str)] [] [] in
  keys_lower (cities (snd (main 6 w))) /\
  prefixes_ok (cities (snd (main 6 w))) = true.
Proof.
  intros header w.
  apply (session_directory_invariants 6 w). vm_compute. reflexivity.
Defined.

(** ** What the entry flow stores *)

Lemma upper_char_idem (c : ascii) : upper_char (upper_char c) = upper_char c.
Proof. all_chars c; reflexivity. Qed.

Lemma title_from_idem (s : str) :
  forall b, title_from b (title_from b s) = title_from b s.
Proof.
  induction s as [|c t IH]; intros b; [reflexivity|].
  cbn [title_from]. destruct b.
  - now rewrite lower_char_idem, lower_char_alpha, IH.
  - now rewrite upper_char_idem, upper_char_alpha, IH.
Qed.

Lemma validate_name_chars (name : str) (w : World) :
  fst (validate_name name w) = Ret true ->
  name <> [] /\ Forall (fun c => is_alpha c = true \/ c = SPACE) name.
Proof.
  rewrite validate_name_run. destruct name as [|c0 t]; [discriminate|].
  destruct (isalpha (replace_with_empty SPACE (c0 :: t))) eqn:E;
    [intros _|discriminate].
  split; [discriminate|]. apply Forall_forall. intros c Hc.
  destruct (Ascii.eqb c SPACE) eqn:Hsp.
  - right. now apply Ascii.eqb_eq.
  - left. unfold isalpha in E.
    destruct (replace_with_empty SPACE (c0 :: t)) as [|x l] eqn:Hr;
      [discriminate|].
    rewrite forallb_forall in E. apply E. rewrite <- Hr.
    apply In_replace_with_empty. split; [exact Hc|].
    now apply Ascii.eqb_neq.
Qed.

(** X6: the county the entry flow stores for a city that was missing is not
    empty, is made of letters and spaces, has no white space around it, and
    is in title case: it is its own [title()], whatever the case of the
    answer and of the county it was matched with. *)
Theorem stored_county_normal_form (fuel : nat) (city_name : str)
        (w w' : World) (r : outcome unit) (county : str) (p : prefix) :
  unknown_city fuel city_name w = (r, w') ->
  dict_get (cities w) (lower city_name) = None ->
  dict_get (cities w') (lower city_name) = Some (county, p) ->
  county <> [] /\
  Forall (fun c => is_alpha c = true \/ c = SPACE) county /\
  strip county = county /\
  title county = county.
Proof.
  intros Hrun Hmiss Hhit.
  apply unknown_city_outcome in Hrun as [[Hc _]|[_ [ca [Hv [Hc _]]]]].
  { rewrite Hc in Hhit. congruence. }
  rewrite Hc, dict_get_set_same in Hhit. injection Hhit as <- _.
  destruct (validate_name_chars _ _ Hv) as [Hne Hchars].
  split; [exact Hne|]. split; [exact Hchars|]. split.
  - apply strip_stripped. now rewrite stripped_title, stripped_strip.
  - apply title_from_idem.
Qed.

Lemma stored_county_normal_form_witness :
  let w := mkWorld [] []
             [("y" : str); ("  lewis AND clark " : str); ("y" : str)] []
             [("helena" : str, ("Lewis and Clark" : str, PInt 5))] in
  let w' := snd (unknown_city 2 "Augusta" w) in
  dict_get (cities w') "augusta" = Some ("Lewis And Clark" : str, PInt 5) /\
  title "Lewis And Clark" = ("Lewis And Clark" : str).
Proof.
  intros w w'.
  assert (dict_get (cities w') (lower "Augusta")
          = Some ("Lewis And Clark" : str, PInt 5)) as Hhit
      by (vm_compute; reflexivity).
  split; [exact Hhit|].
  assert (unknown_city 2 "Augusta" w = (Ret tt, w')) as Hrun
      by (vm_compute; reflexivity).
  exact (proj2 (proj2 (proj2 (stored_county_normal_form
                                2 "Augusta" w w' (Ret tt) "Lewis And Clark"
                                (PInt 5) Hrun eq_refl Hhit)))).
Defined.

(** X7: a city added with the answers "y", a valid county and "y" is found
    at once by [lookup_city], under any casing of its name: the flow returns
    having read the three lines, and the lookup is a hit that prints the
    stored county, stripped and title-cased, with the inferred prefix. *)
Theorem added_city_is_found (fuel : nat) (city_name query : str) (w : World)
        (answer county_answer confirm : str) (rest : list str) :
  stdin w = answer :: county_answer :: confirm :: rest ->
  lower answer = ("y" : str) ->
  fst (validate_name (title (strip county_answer)) w) = Ret true ->
  lower confirm = ("y" : str) ->
  lower query = lower city_name ->
  let county := title (strip county_answer) in
  let p := prefix_to_use (cities w) county in
  exists w',
    unknown_city (S (S fuel)) city_name w = (Ret tt, w') /\
    stdin w' = rest /\
    lookup_city query w' = (Ret true, shows (found_line query county p) w').
Proof.
  intros Hin Hy Hv Hyes Hquery county p. subst county p.
  rewrite (unknown_city_county _ _ _ _ _ _ Hin Hy). cbv zeta.
  set (w1 := reads (confirm :: rest) _).
  rewrite (validate_name_fst _ _ w1) in Hv.
  unfold bind at 1. rewrite (validate_name_true _ _ Hv). cbv iota beta.
  change (negb true) with false. cbv iota.
  rewrite run_get_cities. cbv zeta. unfold bind at 1.
  rewrite (confirm_loop_yes _ _ _ _ w1 confirm rest eq_refl Hyes).
  eexists. split; [reflexivity|]. split; [reflexivity|].
  rewrite lookup_city_run. cbn [cities committed shows set_stdout
                                  set_text_files set_cities reads set_stdin].
  rewrite Hquery, dict_get_set_same. reflexivity.
Qed.

Lemma added_city_is_found_witness :
  let w := mkWorld [] []
             [("Y" : str); ("missoula" : str); ("y" : str); ("x" : str)] []
             [("missoula" : str, ("Missoula" : str, PInt 4))] in
  exists w',
    unknown_city 2 "lolo" w = (Ret tt, w') /\
    stdin w' = [("x" : str)] /\
    lookup_city "LOLO" w'
    = (Ret true, shows (found_line "LOLO" "Missoula" (PInt 4)) w').
Proof.
  intros w.
  apply (added_city_is_found 0 "lolo" "LOLO" w "Y" "missoula" "y" [("x" : str)]);
    reflexivity.
Defined.

(** ** The user store against the reference file *)

Lemma user_line_effect_entry (line : str) (d : city_directory) :
  single_field line = false ->
  user_line_effect line d = Some (merge_entries d (user_entries [line])).
Proof.
  intros Hsingle.
  destruct (user_line_effect line d) as [d'|] eqn:Heffect.
  - revert Heffect. unfold user_line_effect, user_entries, user_line_entry.
    cbn [flat_map]. destruct (strip line) as [|c s]; [intros [= <-]; reflexivity|].
    destruct (split COMMA (c :: s)) as [|p0 [|p1 rest]]; try discriminate.
    intros [= <-]. reflexivity.
  - apply user_line_effect_none in Heffect. congruence.
Qed.

Lemma merge_entries_app d e1 e2 :
  merge_entries d (e1 ++ e2) = merge_entries (merge_entries d e1) e2.
Proof. apply fold_left_app. Qed.

Lemma user_entries_cons line lines :
  user_entries (line :: lines) = user_entries [line] ++ user_entries lines.
Proof. unfold user_entries. cbn [flat_map]. now rewrite app_nil_r. Qed.

Lemma user_entries_app l1 l2 :
  user_entries (l1 ++ l2) = user_entries l1 ++ user_entries l2.
Proof. apply flat_map_app. Qed.

Lemma load_user_lines_merge (lines : list str) :
  forall w,
    existsb single_field lines = false ->
    load_user_lines lines w =
    (Ret tt, set_cities (merge_entries (cities w) (user_entries lines)) w).
Proof.
  induction lines as [|line lines IH]; intros w Hlines.
  - cbn. now rewrite set_cities_same.
  - cbn [existsb] in Hlines. apply orb_false_iff in Hlines as [Hline Hrest].
    rewrite load_user_lines_cons, (user_line_effect_entry _ _ Hline).
    rewrite (IH _ Hrest). cbn [cities set_cities].
    rewrite (user_entries_cons line lines), merge_entries_app. reflexivity.
Qed.


(** X9: when a line of the user store has a single field, [load_user_cities]
    raises [IndexError] with the lines before it already merged into the
    directory, and the lines after it not read. *)
Theorem load_user_cities_partial_merge (file_path content : str)
        (before after : list str) (bad : str) (w : World) :
  dict_get (text_files w) file_path = Some content ->
  file_lines content = before ++ bad :: after ->
  existsb single_field before = false ->
  single_field bad = true ->
  load_user_cities file_path w =
  (Raise IndexError,
   set_cities (merge_entries (cities w) (user_entries before)) w).
Proof.
  intros Hfile Hlines Hbefore Hbad.
  rewrite (load_user_cities_run _ _ _ Hfile), Hlines, load_user_lines_app.
  rewrite (load_user_lines_merge _ _ Hbefore), load_user_lines_cons.
  apply (user_line_effect_none bad
           (cities (set_cities (merge_entries (cities w) (user_entries before)) w)))
    in Hbad.
  now rewrite Hbad.
Qed.


Lemma load_user_cities_partial_merge_witness :
  let content := ("lolo,Missoula,4" : str) ++ [LF] ++ "Hamilton" ++ [LF]
                 ++ "Polson,Lake,15" ++ [LF] in
  let w := mkWorld [] [(CITY_FILE, content)] [] [] [] in
  load_user_cities CITY_FILE w =
  (Raise IndexError,
   set_cities [("lolo" : str, ("Missoula" : str, PStr "4"))] w).
Proof.
  intros content w.
  apply (load_user_cities_partial_merge CITY_FILE content
           [("lolo,Missoula,4" : str) ++ [LF]]
           [("Polson,Lake,15" : str) ++ [LF]]
           (("Hamilton" : str) ++ [LF]) w); reflexivity.
Defined.

(** ** The case of the letters typed *)

Lemma upper_lower_char (c : ascii) : upper_char (lower_char c) = upper_char c.
Proof. all_chars c; reflexivity. Qed.

Lemma lower_char_is_space_char (c : ascii) :
  Ascii.eqb (lower_char c) SPACE = Ascii.eqb c SPACE.
Proof. all_chars c; reflexivity. Qed.

Lemma title_from_lower (s : str) :
  forall b, title_from b (lower s) = title_from b s.
Proof.
  induction s as [|c s IH]; intros b; [reflexivity|].
  cbn [lower map title_from]. fold (lower s).
  rewrite lower_char_idem, upper_lower_char, lower_char_alpha, IH.
  reflexivity.
Qed.

Lemma title_lower (s : str) : title (lower s) = title s.
Proof. apply title_from_lower. Qed.

Lemma lstrip_lower (s : str) : lstrip (lower s) = lower (lstrip s).
Proof.
  induction s as [|c s IH]; [reflexivity|].
  cbn [lower map lstrip]. fold (lower s). rewrite lower_char_space.
  destruct (is_space c); [exact IH|reflexivity].
Qed.

Lemma strip_lower (s : str) : strip (lower s) = lower (strip s).
Proof.
  unfold strip, rstrip. rewrite lstrip_lower. unfold lower at 1.
  rewrite <- map_rev. fold (lower (rev (lstrip s))).
  rewrite lstrip_lower. unfold lower. now rewrite map_rev.
Qed.

Lemma isalpha_lower (s : str) :
  isalpha (replace_with_empty SPACE (lower s))
  = isalpha (replace_with_empty SPACE s).
Proof.
  assert (replace_with_empty SPACE (lower s)
          = lower (replace_with_empty SPACE s)) as ->.
  { unfold replace_with_empty, lower. induction s as [|c s IH]; [reflexivity|].
    cbn [map filter]. rewrite lower_char_is_space_char.
    destruct (negb (Ascii.eqb c SPACE)); cbn [map]; now rewrite IH. }
  generalize (replace_with_empty SPACE s). intros t.
  destruct t as [|c t]; [reflexivity|].
  assert (forall u, forallb is_alpha (lower u) = forallb is_alpha u) as Hall.
  { induction u as [|x u IH]; [reflexivity|].
    cbn [lower map forallb]. fold (lower u). now rewrite lower_char_alpha, IH. }
  exact (Hall (c :: t)).
Qed.

Lemma validate_name_lower (s : str) (w : World) :
  validate_name (lower s) w = validate_name s w.
Proof.
  rewrite !validate_name_run, isalpha_lower. now destruct s.
Qed.

Lemma same_letters_title (a b : str) : same_letters a b -> title a = title b.
Proof. intros H. rewrite <- (title_lower a), H. apply title_lower. Qed.

Lemma same_letters_strip (a b : str) :
  same_letters a b -> same_letters (strip a) (strip b).
Proof. unfold same_letters. intros H. now rewrite <- !strip_lower, H. Qed.

Lemma same_letters_validate (a b : str) (w : World) :
  same_letters a b -> validate_name a w = validate_name b w.
Proof.
  intros H. rewrite <- (validate_name_lower a), H. apply validate_name_lower.
Qed.

Lemma same_up_to_case_refl (w : World) : same_up_to_case w w.
Proof. repeat split. Qed.

Lemma same_outcome_eq {A : Type} (o1 o2 : outcome A) :
  same_outcome eq o1 o2 <-> o1 = o2.
Proof.
  destruct o1, o2; cbn; split; intros H; try congruence; try contradiction;
    try discriminate H; try exact I.
Qed.

Lemma related_ret {A : Type} (RA : A -> A -> Prop) (a1 a2 : A) :
  RA a1 a2 -> related RA (ret a1) (ret a2).
Proof. intros H w1 w2 Hw. split; [exact H|exact Hw]. Qed.

Lemma related_out_of_fuel {A : Type} (RA : A -> A -> Prop) :
  related RA out_of_fuel out_of_fuel.
Proof. intros w1 w2 Hw. split; [exact I|exact Hw]. Qed.

Lemma related_bind {A B : Type} (RA : A -> A -> Prop) (RB : B -> B -> Prop)
      (m1 m2 : M A) (k1 k2 : A -> M B) :
  related RA m1 m2 ->
  (forall a1 a2, RA a1 a2 -> related RB (k1 a1) (k2 a2)) ->
  related RB (bind m1 k1) (bind m2 k2).
Proof.
  intros Hm Hk w1 w2 Hw. unfold bind. destruct (Hm w1 w2 Hw) as [Ho Hs].
  destruct (m1 w1) as [[a1|e1|] w1'], (m2 w2) as [[a2|e2|] w2'];
    cbn [fst snd same_outcome] in *; try contradiction.
  - now apply Hk.
  - now split.
  - now split.
Qed.

Lemma related_seq {A B : Type} (RB : B -> B -> Prop)
      (m1 m2 : M A) (k1 k2 : M B) :
  related eq m1 m2 -> related RB k1 k2 ->
  related RB (m1 ;; k1) (m2 ;; k2).
Proof. intros Hm Hk. apply (related_bind eq); [exact Hm|]. intros; exact Hk. Qed.

Lemma related_write_stdout (s : str) :
  related eq (write_stdout s) (write_stdout s).
Proof.
  intros w1 w2 (Hin & Hout & Hc & Ht & Hcsv). split; [reflexivity|].
  unfold write_stdout, same_up_to_case. cbn. rewrite Hout. now repeat split.
Qed.

Lemma related_print (s : str) : related eq (print s) (print s).
Proof. apply related_write_stdout. Qed.

Lemma related_read_line : related same_letters read_line read_line.
Proof.
  intros w1 w2 Hw. pose proof Hw as (Hin & Hout & Hc & Ht & Hcsv).
  unfold read_line.
  destruct (stdin w1) as [|l1 r1], (stdin w2) as [|l2 r2];
    try discriminate Hin; cbn [fst snd same_outcome].
  - split; [reflexivity|exact Hw].
  - cbn [map] in Hin. injection Hin as Hline Hrest.
    split; [exact Hline|]. unfold same_up_to_case. cbn. now repeat split.
Qed.

Lemma related_input (prompt : str) :
  related same_letters (input prompt) (input prompt).
Proof.
  unfold input. apply related_seq;
    [apply related_write_stdout|apply related_read_line].
Qed.

Lemma related_get_cities : related eq get_cities get_cities.
Proof.
  intros w1 w2 Hw. split; [|exact Hw]. cbn. apply Hw.
Qed.

Lemma related_cities_setitem (k : str) (v : city_record) :
  related eq (cities_setitem k v) (cities_setitem k v).
Proof.
  intros w1 w2 (Hin & Hout & Hc & Ht & Hcsv). split; [reflexivity|].
  unfold cities_setitem, same_up_to_case. cbn. rewrite Hc. now repeat split.
Qed.

Lemma related_save_new_city (city_name county_name : str) (p : prefix) :
  related eq (save_new_city city_name county_name p)
          (save_new_city city_name county_name p).
Proof.
  intros w1 w2 (Hin & Hout & Hc & Ht & Hcsv). split; [reflexivity|].
  unfold save_new_city, open_append_write, same_up_to_case. cbn.
  rewrite Ht. now repeat split.
Qed.

Lemma related_validate_name (a b : str) :
  same_letters a b -> related eq (validate_name a) (validate_name b).
Proof.
  intros H w1 w2 Hw. rewrite (same_letters_validate a b w1 H).
  revert w1 w2 Hw. change (related eq (validate_name b) (validate_name b)).
  unfold validate_name. destruct b as [|c t].
  - apply related_seq; [apply related_print|now apply related_ret].
  - destruct (negb (isalpha (replace_with_empty SPACE (c :: t)))).
    + apply related_seq; [apply related_print|now apply related_ret].
    + now apply related_ret.
Qed.

Lemma related_lookup_city (a b : str) :
  same_letters a b -> related eq (lookup_city a) (lookup_city b).
Proof.
  intros H. unfold lookup_city. cbv zeta.
  rewrite (same_letters_title a b H). unfold same_letters in H. rewrite H.
  apply (related_bind eq); [apply related_get_cities|].
  intros d ? <-. destruct (dict_get d (lower b)) as [[county p]|].
  - apply related_seq; [apply related_print|now apply related_ret].
  - now apply related_ret.
Qed.

Lemma related_confirm_loop (fuel : nat) (a b county_name : str) (p : prefix) :
  same_letters a b ->
  related eq (confirm_loop fuel a county_name p)
          (confirm_loop fuel b county_name p).
Proof.
  intros H. induction fuel as [|fuel IH]; [apply related_out_of_fuel|].
  cbn [confirm_loop]. rewrite (same_letters_title a b H).
  pose proof H as Hlower. unfold same_letters in Hlower. rewrite Hlower.
  repeat (apply related_seq; [apply related_print|]).
  apply (related_bind same_letters); [apply related_input|].
  intros x y Hxy. cbv zeta. unfold same_letters in Hxy. rewrite Hxy.
  destruct (negb (is_y_or_n (lower y))).
  - apply related_seq; [apply related_print|exact IH].
  - destruct (str_eqb (lower y) "n").
    + apply related_seq; [apply related_print|now apply related_ret].
    + apply related_seq; [apply related_cities_setitem|].
      apply related_seq; [apply related_save_new_city|].
      apply related_seq; [apply related_print|now apply related_ret].
Qed.

Lemma related_unknown_city (fuel : nat) (a b : str) :
  same_letters a b ->
  related eq (unknown_city fuel a) (unknown_city fuel b).
Proof.
  intros H. induction fuel as [|fuel IH]; [apply related_out_of_fuel|].
  cbn [unknown_city]. rewrite (same_letters_title a b H).
  apply (related_bind same_letters); [apply related_input|].
  intros x y Hxy. cbv zeta. unfold same_letters in Hxy. rewrite Hxy.
  destruct (negb (is_y_or_n (lower y))).
  - apply related_seq; [apply related_print|exact IH].
  - destruct (str_eqb (lower y) "n"); [now apply related_ret|].
    apply (related_bind same_letters); [apply related_input|].
    intros c1 c2 Hc.
    rewrite (same_letters_title _ _ (same_letters_strip _ _ Hc)).
    apply (related_bind eq);
      [apply related_validate_name; reflexivity|].
    intros valid ? <-. destruct (negb valid); [exact IH|].
    apply (related_bind eq); [apply related_get_cities|].
    intros d ? <-.
    apply (related_bind eq); [now apply related_confirm_loop|].
    intros exit ? <-. destruct exit; [exact IH|now apply related_ret].
Qed.

Lemma related_main_loop (fuel : nat) :
  related eq (main_loop fuel) (main_loop fuel).
Proof.
  induction fuel as [|fuel IH]; [apply related_out_of_fuel|].
  cbn [main_loop].
  apply (related_bind same_letters); [apply related_input|].
  intros x y Hxy. cbv zeta.
  pose proof (same_letters_strip _ _ Hxy) as Hname.
  pose proof Hname as Hlower. unfold same_letters in Hlower. rewrite Hlower.
  destruct (str_eqb (lower (strip y)) "x"); [now apply related_ret|].
  apply (related_bind eq); [now apply related_validate_name|].
  intros valid ? <-. destruct (negb valid); [exact IH|].
  apply (related_bind eq); [now apply related_lookup_city|].
  intros found ? <-. destruct (negb found); [|exact IH].
  apply related_seq; [now apply related_unknown_city|exact IH].
Qed.

Lemma related_load_user_lines (lines : list str) :
  related eq (load_user_lines lines) (load_user_lines lines).
Proof.
  induction lines as [|line lines IH]; [now apply related_ret|].
  intros w1 w2 Hw. rewrite !load_user_lines_cons.
  pose proof Hw as (Hin & Hout & Hc & Ht & Hcsv). rewrite Hc.
  destruct (user_line_effect line (cities w2)) as [d|].
  - apply IH. unfold same_up_to_case. cbn. now repeat split.
  - split; [reflexivity|exact Hw].
Qed.

Lemma related_load_data : related eq load_data load_data.
Proof.
  unfold load_data. apply (related_bind eq).
  - unfold load_initial_cities. apply (related_bind eq).
    + intros w1 w2 Hw. unfold open_csv_reader.
      pose proof Hw as (Hin & Hout & Hc & Ht & Hcsv). rewrite Hcsv.
      destruct (dict_get (csv_files w2) CSV_FILE);
        (split; [reflexivity|exact Hw]).
    + intros rows ? <- w1 w2 Hw.
      pose proof (load_initial_rows_frame (DictReader rows) [] w1 w2) as H1.
      pose proof (load_initial_rows_frame (DictReader rows) [] w2 w2) as H2.
      destruct (load_initial_rows (DictReader rows) [] w1) as [o1 u1].
      destruct (load_initial_rows (DictReader rows) [] w2) as [o2 u2].
      cbn [fst snd] in *. injection H1 as -> ->. injection H2 as ->.
      split; [now apply same_outcome_eq|exact Hw].
  - intros loaded ? <-. apply related_seq.
    + intros w1 w2 (Hin & Hout & Hc & Ht & Hcsv). split; [reflexivity|].
      unfold same_up_to_case. cbn. now repeat split.
    + unfold load_user_cities. apply (related_bind eq).
      * intros w1 w2 Hw. unfold open_read_lines.
        pose proof Hw as (Hin & Hout & Hc & Ht & Hcsv). rewrite Ht.
        destruct (dict_get (text_files w2) CITY_FILE);
          (split; [reflexivity|exact Hw]).
      * intros lines ? <-. apply related_load_user_lines.
Qed.

Lemma related_main (fuel : nat) : related eq (main fuel) (main fuel).
Proof.
  unfold main. apply related_seq; [apply related_load_data|].
  apply related_seq; [apply related_print|].
  apply related_seq; [apply related_print|].
  apply (related_bind same_letters); [apply related_input|].
  intros x y Hxy. cbv zeta. unfold same_letters in Hxy. rewrite Hxy.
  destruct (negb (str_eqb (lower y) "y")); [apply related_print|].
  apply related_seq; [apply related_main_loop|apply related_print].
Qed.

(** X12: the session ignores the case of the letters typed: from two worlds
    with the same files, whose input lines differ at most in the case of
    their letters, [main] ends the same way, with the same output, the same
    directory and the same files. *)
Theorem session_case_insensitive (fuel : nat) (w1 w2 : World) :
  same_up_to_case w1 w2 ->
  fst (main fuel w1) = fst (main fuel w2) /\
  same_up_to_case (snd (main fuel w1)) (snd (main fuel w2)).
Proof.
  intros Hw. destruct (related_main fuel w1 w2 Hw) as [Houtcome Hworld].
  split; [now apply same_outcome_eq|exact Hworld].
Qed.

Lemma session_case_insensitive_witness :
  let header := [("city" : str); ("county" : str); ("prefix" : str)] in
  let csv := [(CSV_FILE, [header; [("Butte" : str); ("Silver Bow" : str); ("1" : str)]])] in
  let txt := [(CITY_FILE, ("Lolo,Missoula,4" : str) ++ [LF])] in
  let w1 := mkWorld csv txt
              [("Y" : str); ("BUTTE" : str); ("Polson" : str); ("y" : str);
               ("LAKE" : str); ("Y" : str); ("X" : str)] [] [] in
  let w2 := mkWorld csv txt
              [("y" : str); ("butte" : str); ("pOLSON" : str); ("Y" : str);
               ("lake" : str); ("y" : str); ("x" : str)] [] [] in
  fst (main 5 w1) = fst (main 5 w2) /\
  same_up_to_case (snd (main 5 w1)) (snd (main 5 w2)).
Proof.
  intros header csv txt w1 w2.
  apply (session_case_insensitive 5 w1 w2). vm_compute. repeat split.
Defined.

(** X11: [validate_name] and [lookup_city] ignore the case of the letters of
    the name: two names with the same lowering get the same verdict, the same
    record and the very same printed line. *)
Theorem lookup_ignores_case (a b : str) (w : World) :
  lower a = lower b ->
  validate_name a w = validate_name b w /\ lookup_city a w = lookup_city b w.
Proof.
  intros H. split; [now apply same_letters_validate|].
  unfold lookup_city. cbv zeta. rewrite (same_letters_title a b H), H.
  reflexivity.
Qed.

Lemma lookup_ignores_case_witness :
  let w := mkWorld [] [] [] [] [("lolo" : str, ("Missoula" : str, PInt 4))] in
  validate_name "LoLo" w = validate_name "lolo" w /\
  lookup_city "LoLo" w = lookup_city "lolo" w.
Proof.
  intros w. apply (lookup_ignores_case "LoLo" "lolo" w). reflexivity.
Defined.

(** ** A session of look-ups *)

Lemma main_loop_hits (answers : list str) :
  forall fuel w exit_word rest,
    forallb (names_known_city (cities w)) answers = true ->
    lower (strip exit_word) = ("x" : str) ->
    stdin w = answers ++ exit_word :: rest ->
    (List.length answers < fuel)%nat ->
    main_loop fuel w =
    (Ret tt,
     reads rest
       (set_stdout (stdout w ++ hit_lines (cities w) answers ++ [ask_city]) w)).
Proof.
  induction answers as [|answer answers IH];
    intros fuel w exit_word rest Hknown Hexit Hin Hfuel;
    (destruct fuel as [|fuel]; [cbn in Hfuel; lia|]).
  - rewrite (main_loop_exit _ _ _ _ Hin Hexit). reflexivity.
  - cbn [forallb] in Hknown. apply andb_true_iff in Hknown as [Hone Hothers].
    unfold names_known_city in Hone.
    apply andb_true_iff in Hone as [Hone Hget].
    apply andb_true_iff in Hone as [Hx Hvalid].
    destruct (dict_get (cities w) (lower (strip answer)))
      as [[county p]|] eqn:Hrecord; [|discriminate].
    assert (lower (strip answer) <> ("x" : str)) as Hnotx.
    { intros E. rewrite E in Hx. discriminate Hx. }
    assert (fst (validate_name (strip answer) w) = Ret true) as Hv.
    { rewrite validate_name_run. destruct (strip answer); [discriminate|].
      now rewrite Hvalid. }
    cbn [app] in Hin.
    rewrite (main_loop_hit _ _ _ _ _ _ Hin Hnotx Hv Hrecord).
    rewrite (IH fuel _ exit_word rest); try assumption;
      [|reflexivity|cbn in Hfuel; lia].
    cbn [hit_lines flat_map]. rewrite Hrecord.
    unfold reads, city_asked, reads, shows, set_stdin, set_stdout. cbn.
    rewrite <- !app_assoc. reflexivity.
Qed.

(** X13: a session of look-ups: after the load and the answer y, lines that
    name known cities followed by the exit word make [main] return, having
    written the greeting, one prompt and one hit line per city, a last prompt
    and the farewell; the directory and the files are not changed and the
    lines after the exit word are not read. *)
Theorem lookup_session (fuel : nat) (w w0 : World) (ready : str)
        (answers : list str) (exit_word : str) (rest : list str) :
  load_data w = (Ret tt, w0) ->
  stdin w0 = ready :: answers ++ exit_word :: rest ->
  lower ready = ("y" : str) ->
  forallb (names_known_city (cities w0)) answers = true ->
  lower (strip exit_word) = ("x" : str) ->
  (List.length answers < fuel)%nat ->
  exists w',
    main fuel w = (Ret tt, w') /\
    same_store w0 w' /\
    stdin w' = rest /\
    stdout w' =
    stdout w ++ greeting ++ hit_lines (cities w0) answers
      ++ [ask_city; ("Thanks! Have a good day." : str) ++ [LF]].
Proof.
  intros Hload Hin Hready Hknown Hexit Hfuel.
  destruct (main_after_load fuel w w0 Hload) as [Hgo _].
  rewrite (Hgo _ _ Hin), Hready. cbn [str_eqb negb].
  change (negb (str_eqb "y" "y")) with false. cbv iota.
  unfold bind.
  rewrite (main_loop_hits answers fuel _ exit_word rest);
    [|exact Hknown|exact Hexit|reflexivity|exact Hfuel].
  eexists. split; [reflexivity|].
  pose proof (load_data_others w) as (_ & _ & _ & Hout).
  rewrite Hload in Hout. cbn [snd] in Hout.
  split; [now repeat split|]. split; [reflexivity|].
  cbn. rewrite Hout, <- !app_assoc. reflexivity.
Qed.

Lemma lookup_session_witness :
  let header := [("city" : str); ("county" : str); ("prefix" : str)] in
  let w := mkWorld
             [(CSV_FILE, [header; [("Butte" : str); ("Silver Bow" : str); ("1" : str)]])]
             [(CITY_FILE, ("Lolo,Missoula,4" : str) ++ [LF])]
             [("Y" : str); (" butte " : str); ("LOLO" : str); ("X" : str);
              ("unread" : str)] [] [] in
  exists w',
    main 3 w = (Ret tt, w') /\
    same_store (snd (load_data w)) w' /\
    stdin w' = [("unread" : str)] /\
    stdout w' =
    greeting
      ++ [ask_city; found_line "butte" "Silver Bow" (PInt 1);
          ask_city; found_line "LOLO" "Missoula" (PStr "4");
          ask_city; ("Thanks! Have a good day." : str) ++ [LF]].
Proof.
  intros header w.
  apply (lookup_session 3 w (snd (load_data w)) "Y"
           [(" butte " : str); ("LOLO" : str)] "X" [("unread" : str)]);
    try reflexivity.
  cbn. lia.
Defined.

(** ** The directory and the user store in step *)







(** ** The fields of a line of the user store *)

Lemma lstrip_idem (s : str) : lstrip (lstrip s) = lstrip s.
Proof.
  destruct (lstrip_result s) as [H|[c [t [H Hc]]]]; rewrite H;
    [reflexivity|now apply lstrip_nonspace].
Qed.

Lemma rstrip_idem (s : str) : rstrip (rstrip s) = rstrip s.
Proof. unfold rstrip. now rewrite rev_involutive, lstrip_idem. Qed.

Lemma rstrip_middle (x y : str) (c : ascii) :
  is_space c = false -> rstrip (x ++ c :: y) = x ++ c :: rstrip y.
Proof.
  intros Hc. unfold rstrip. rewrite rev_app_distr. cbn [rev].
  rewrite <- app_assoc. cbn [app].
  rewrite (lstrip_app_nonspace _ _ _ Hc), rev_app_distr. cbn [rev].
  rewrite rev_involutive, <- app_assoc. reflexivity.
Qed.

Lemma lstrip_spaces (spaces t : str) :
  forallb is_space spaces = true -> lstrip (spaces ++ t) = lstrip t.
Proof.
  induction spaces as [|c spaces IH]; [reflexivity|].
  cbn [forallb app lstrip]. intros H. apply andb_true_iff in H as [Hc Hrest].
  rewrite Hc. now apply IH.
Qed.

Lemma lstrip_decompose (s : str) :
  exists spaces, s = spaces ++ lstrip s /\ forallb is_space spaces = true.
Proof.
  induction s as [|c s [spaces [Hs Hspaces]]]; [now exists []|].
  cbn [lstrip]. destruct (is_space c) eqn:Hc.
  - exists (c :: spaces). cbn [app forallb]. rewrite Hc, Hspaces.
    split; [now rewrite <- Hs|reflexivity].
  - now exists [].
Qed.

Lemma rstrip_spaces (s : str) : forallb is_space s = true -> rstrip s = [].
Proof.
  intros H. unfold rstrip.
  assert (forallb is_space (rev s) = true) as Hrev.
  { apply forallb_forall. intros x Hx. apply in_rev in Hx.
    rewrite forallb_forall in H. now apply H. }
  pose proof (lstrip_spaces (rev s) [] Hrev) as E.
  rewrite app_nil_r in E. now rewrite E.
Qed.

Lemma lstrip_rstrip (s : str) : lstrip (rstrip s) = rstrip (lstrip s).
Proof.
  destruct (lstrip_decompose s) as [spaces [Hs Hspaces]].
  destruct (lstrip_result s) as [H|[c [t [H Hc]]]]; rewrite H in *.
  - rewrite app_nil_r in Hs. subst s. now rewrite (rstrip_spaces _ Hspaces).
  - rewrite Hs at 1. rewrite (rstrip_middle _ _ _ Hc).
    rewrite (lstrip_spaces _ _ Hspaces), (lstrip_nonspace _ _ Hc).
    now rewrite (rstrip_cons_nonspace _ _ Hc).
Qed.

Lemma strip_lstrip (s : str) : strip (lstrip s) = strip s.
Proof. unfold strip. now rewrite lstrip_idem. Qed.

Lemma strip_rstrip (s : str) : strip (rstrip s) = strip s.
Proof. unfold strip. now rewrite lstrip_rstrip, rstrip_idem. Qed.

Lemma rstrip_incl (s : str) (x : ascii) : In x (rstrip s) -> In x s.
Proof.
  unfold rstrip. intros H. apply in_rev in H. apply lstrip_incl in H.
  now apply in_rev.
Qed.

Lemma existsb_false_incl (f : ascii -> bool) (a b : str) :
  (forall x, In x a -> In x b) ->
  existsb f b = false -> existsb f a = false.
Proof.
  intros Hincl Hb. destruct (existsb f a) eqn:Ha; [|reflexivity].
  apply existsb_exists in Ha as [x [Hx Hfx]].
  assert (existsb f b = true) as E
      by (apply existsb_exists; exists x; auto).
  congruence.
Qed.

Lemma user_line_effect_parts (line part0 part1 : str) (rest : list str)
      (d : city_directory) :
  strip line <> [] ->
  split COMMA (strip line) = part0 :: part1 :: rest ->
  user_line_effect line d =
  Some (dict_set d (lower (strip part0))
          (strip part1,
           PStr (match rest with
                 | part2 :: _ => strip part2
                 | [] => "unknown" : str
                 end))).
Proof.
  intros Hline Hparts. unfold user_line_effect. rewrite Hparts.
  now destruct (strip line).
Qed.

Lemma strip_fields (city tail : str) :
  strip (city ++ COMMA :: tail) = lstrip city ++ COMMA :: rstrip tail.
Proof.
  unfold strip. rewrite (lstrip_app_nonspace _ _ COMMA eq_refl).
  apply rstrip_middle. reflexivity.
Qed.

(** X10: the fields of a line of the user store: the white space around the
    line and around each field is dropped and the city is lowered; a line
    with two fields gets the prefix "unknown", a line with three fields the
    text of the third, also when it is a number, and what follows a third
    comma is ignored. *)
Theorem user_line_fields (city county p extra : str) (w : World) :
  existsb (Ascii.eqb COMMA) city = false ->
  existsb (Ascii.eqb COMMA) county = false ->
  existsb (Ascii.eqb COMMA) p = false ->
  let stored (q : str) :=
    (Ret tt,
     set_cities
       (dict_set (cities w) (lower (strip city)) (strip county, PStr q)) w) in
  load_user_line (city ++ "," ++ county) w = stored "unknown" /\
  load_user_line (city ++ "," ++ county ++ "," ++ p) w = stored (strip p) /\
  load_user_line (city ++ "," ++ county ++ "," ++ p ++ "," ++ extra) w
  = stored (strip p).
Proof.
  intros Hcity Hcounty Hp stored. subst stored.
  assert (existsb (Ascii.eqb COMMA) (lstrip city) = false) as Hcity'
      by (eapply existsb_false_incl; [apply lstrip_incl|exact Hcity]).
  assert (forall s, existsb (Ascii.eqb COMMA) s = false ->
                    existsb (Ascii.eqb COMMA) (rstrip s) = false) as Hr
      by (intros s Hs; eapply existsb_false_incl; [apply rstrip_incl|exact Hs]).
  assert (forall tail, strip (city ++ "," ++ tail) <> []) as Hline.
  { intros tail. change (city ++ "," ++ tail) with (city ++ COMMA :: tail).
    rewrite strip_fields. now destruct (lstrip city). }
  split; [|split]; rewrite load_user_line_run.
  - rewrite (user_line_effect_parts _ (lstrip city) (rstrip county) []).
    + now rewrite strip_lstrip, strip_rstrip.
    + apply Hline.
    + change (city ++ "," ++ county) with (city ++ COMMA :: county).
      rewrite strip_fields, (split_app_sep _ _ _ Hcity').
      now rewrite (split_no_sep _ _ (Hr _ Hcounty)).
  - rewrite (user_line_effect_parts _ (lstrip city) county [rstrip p]).
    + now rewrite strip_lstrip, strip_rstrip.
    + apply Hline.
    + change (city ++ "," ++ county ++ "," ++ p)
        with (city ++ COMMA :: (county ++ COMMA :: p)).
      rewrite strip_fields, (rstrip_middle _ _ COMMA eq_refl).
      rewrite (split_app_sep _ _ _ Hcity'), (split_app_sep _ _ _ Hcounty).
      now rewrite (split_no_sep _ _ (Hr _ Hp)).
  - destruct (split_cons COMMA (rstrip extra)) as [e0 [others He]].
    rewrite (user_line_effect_parts _ (lstrip city) county (p :: e0 :: others)).
    + now rewrite strip_lstrip.
    + apply Hline.
    + change (city ++ "," ++ county ++ "," ++ p ++ "," ++ extra)
        with (city ++ COMMA :: (county ++ COMMA :: (p ++ COMMA :: extra))).
      rewrite strip_fields, !(rstrip_middle _ _ COMMA eq_refl).
      rewrite (split_app_sep _ _ _ Hcity'), (split_app_sep _ _ _ Hcounty).
      now rewrite (split_app_sep _ _ _ Hp), He.
Qed.

Lemma user_line_fields_witness :
  let w := mkWorld [] [] [] [] [] in
  let stored (q : str) :=
    (Ret tt,
     set_cities
       (dict_set (cities w) (lower (strip " Lolo ")) (strip " Missoula ", PStr q))
       w) in
  load_user_line (" Lolo " ++ "," ++ " Missoula ") w = stored "unknown" /\
  load_user_line (" Lolo " ++ "," ++ " Missoula " ++ "," ++ " 4 ") w
  = stored (strip " 4 ") /\
  load_user_line
    (" Lolo " ++ "," ++ " Missoula " ++ "," ++ " 4 " ++ "," ++ "more,and more")
    w
  = stored (strip " 4 ").
Proof.
  intros w.
  apply (user_line_fields " Lolo " " Missoula " " 4 " "more,and more" w);
    reflexivity.
Defined.

(** ** From one session to the next *)











(** ** The first bad row of the reference file *)





